(** * Statement attribute handling (lib/Sema/SemaStmtAttr.cpp)

    A shallow embedding of the statement-attribute pass of Sema: the
    [fallthrough] handler, the loop-hint handler ([#pragma clang loop],
    [#pragma unroll], [#pragma nounroll]), the check for incompatible loop
    hints, and the driver that runs them over an attribute list.

    Sema is threaded explicitly: a handler is a function from the Sema state
    to an optional result and the new state, where the state collects the
    diagnostics in emission order.  The absence of a result stands for what
    C++ leaves undefined (a null pointer dereferenced, a failed assertion). *)

From Stdlib Require Import ZArith List String Bool Lia Arith.
Import ListNotations.
Open Scope string_scope.
Open Scope Z_scope.

(** ** Source locations and statements *)

(** A [SourceLocation] is an opaque offset. *)
Definition SourceLocation := nat.

Record SourceRange := mkSourceRange {
  getBegin : SourceLocation;
  getEnd : SourceLocation
}.

(** The statement classes: those the handlers tell apart and some of their
    neighbours by name, every other class of the AST by its number.
    [CaseStmt] and [DefaultStmt] are the two subclasses of [SwitchCase]. *)
Inductive StmtClass :=
| NullStmtClass | CompoundStmtClass | LabelStmtClass | AttributedStmtClass
| IfStmtClass | SwitchStmtClass | WhileStmtClass | DoStmtClass | ForStmtClass
| CXXForRangeStmtClass | GotoStmtClass | ContinueStmtClass | BreakStmtClass
| ReturnStmtClass | DeclStmtClass | CaseStmtClass | DefaultStmtClass
| CXXTryStmtClass
| OtherStmtClass (n : nat).

Definition StmtClass_eqb (a b : StmtClass) : bool :=
  match a, b with
  | NullStmtClass, NullStmtClass | CompoundStmtClass, CompoundStmtClass
  | LabelStmtClass, LabelStmtClass | AttributedStmtClass, AttributedStmtClass
  | IfStmtClass, IfStmtClass | SwitchStmtClass, SwitchStmtClass
  | WhileStmtClass, WhileStmtClass | DoStmtClass, DoStmtClass
  | ForStmtClass, ForStmtClass | CXXForRangeStmtClass, CXXForRangeStmtClass
  | GotoStmtClass, GotoStmtClass | ContinueStmtClass, ContinueStmtClass
  | BreakStmtClass, BreakStmtClass | ReturnStmtClass, ReturnStmtClass
  | DeclStmtClass, DeclStmtClass | CaseStmtClass, CaseStmtClass
  | DefaultStmtClass, DefaultStmtClass | CXXTryStmtClass, CXXTryStmtClass =>
      true
  | OtherStmtClass n, OtherStmtClass m => Nat.eqb n m
  | _, _ => false
  end.

Record Stmt := mkStmt {
  getStmtClass : StmtClass;
  getLocStart : SourceLocation
}.

(** [isa<NullStmt>(St)] *)
Definition isa_NullStmt (St : Stmt) : bool :=
  StmtClass_eqb (getStmtClass St) NullStmtClass.

(** [isa<SwitchCase>(St)] *)
Definition isa_SwitchCase (St : Stmt) : bool :=
  StmtClass_eqb (getStmtClass St) CaseStmtClass
  || StmtClass_eqb (getStmtClass St) DefaultStmtClass.

(** ** Expressions and their constant value *)

(** The result of [llvm::APSInt::getSExtValue()], an [int64_t]; the bits
    behind it are LLVM's and play no part here. *)
Record APSInt := mkAPSInt {
  getSExtValue : Z
}.

(** An expression is known by what [isIntegerConstantExpr] answers for it:
    the constant when it is an integer constant expression, nothing when it
    is not.  The evaluator itself lives in the AST library. *)
Record Expr := mkExpr {
  isIntegerConstantExpr : option APSInt
}.

(** Conversion of an [int64_t] to [int]: wrap-around to 32 bits, two's
    complement. *)
Definition toInt (x : Z) : Z := (x + 2 ^ 31) mod 2 ^ 32 - 2 ^ 31.

(** ** Attributes as parsed *)

Definition IdentifierInfo := string.

Record IdentifierLoc := mkIdentifierLoc {
  Loc : SourceLocation;
  Ident : option IdentifierInfo
}.

Module AttributeList.
Inductive Kind :=
| UnknownAttribute
| AT_FallThrough
| AT_LoopHint
| AT_Other (* any attribute that is known, yet not a statement attribute *).
End AttributeList.

(** The part of [AttributeList] the pass reads.  [getArgAsIdent i] and
    [getArgAsExpr i] give the i-th argument, [None] for a null pointer. *)
Record AttributeListT := mkAttributeList {
  getKind : AttributeList.Kind;
  getName : IdentifierInfo;
  getLoc : SourceLocation;
  getRange : SourceRange;
  isDeclspecAttribute : bool;
  getAttributeSpellingListIndex : nat;
  getArgAsIdent : nat -> option IdentifierLoc;
  getArgAsExpr : nat -> option Expr
}.

(** ** Attributes as attached *)

Module LoopHintAttr.
Inductive OptionType :=
| Vectorize | VectorizeWidth | Interleave | InterleaveCount
| Unroll | UnrollCount.

Inductive Spelling := Pragma_clang_loop | Pragma_unroll | Pragma_nounroll.

Definition OptionType_eqb (a b : OptionType) : bool :=
  match a, b with
  | Vectorize, Vectorize | VectorizeWidth, VectorizeWidth
  | Interleave, Interleave | InterleaveCount, InterleaveCount
  | Unroll, Unroll | UnrollCount, UnrollCount => true
  | _, _ => false
  end.

Definition Spelling_eqb (a b : Spelling) : bool :=
  match a, b with
  | Pragma_clang_loop, Pragma_clang_loop | Pragma_unroll, Pragma_unroll
  | Pragma_nounroll, Pragma_nounroll => true
  | _, _ => false
  end.

(** [getValue] is an [int]. *)
Record t := CreateImplicit {
  getSpelling : Spelling;
  getOption : OptionType;
  getValue : Z;
  getRange : SourceRange
}.
End LoopHintAttr.

Inductive Attr :=
| FallThroughAttr (R : SourceRange) (SpellingListIndex : nat)
| LoopHint (LH : LoopHintAttr.t).

(** [dyn_cast<LoopHintAttr>(I)] *)
Definition dyn_cast_LoopHintAttr (I : Attr) : option LoopHintAttr.t :=
  match I with
  | LoopHint LH => Some LH
  | FallThroughAttr _ _ => None
  end.

(** ** Diagnostics *)

Inductive DiagID :=
| err_fallthrough_attr_wrong_target
| note_fallthrough_insert_semi_fixit
| err_fallthrough_attr_outside_switch
| err_pragma_loop_precedes_nonloop
| err_pragma_loop_invalid_keyword
| err_pragma_loop_invalid_value
| err_pragma_loop_compatibility
| warn_unhandled_ms_attribute_ignored
| warn_unknown_attribute_ignored
| err_attribute_invalid_on_stmt.

Definition DiagID_eqb (a b : DiagID) : bool :=
  match a, b with
  | err_fallthrough_attr_wrong_target, err_fallthrough_attr_wrong_target
  | note_fallthrough_insert_semi_fixit, note_fallthrough_insert_semi_fixit
  | err_fallthrough_attr_outside_switch, err_fallthrough_attr_outside_switch
  | err_pragma_loop_precedes_nonloop, err_pragma_loop_precedes_nonloop
  | err_pragma_loop_invalid_keyword, err_pragma_loop_invalid_keyword
  | err_pragma_loop_invalid_value, err_pragma_loop_invalid_value
  | err_pragma_loop_compatibility, err_pragma_loop_compatibility
  | warn_unhandled_ms_attribute_ignored, warn_unhandled_ms_attribute_ignored
  | warn_unknown_attribute_ignored, warn_unknown_attribute_ignored
  | err_attribute_invalid_on_stmt, err_attribute_invalid_on_stmt => true
  | _, _ => false
  end.

(** [FixItHint::CreateInsertion(L, Code)] *)
Record FixItHint := CreateInsertion {
  InsertionLoc : SourceLocation;
  CodeToInsert : string
}.

(** What is streamed into a diagnostic with [<<].  [ArgDiagnosticName LH]
    is the string [LH->getDiagnosticName()]; the attribute class that renders
    it is generated elsewhere, so the argument is kept as the attribute it
    names. *)
Inductive DiagArg :=
| ArgString (s : string)
| ArgSourceLocation (L : SourceLocation)
| ArgIdentifier (II : IdentifierInfo)
| ArgBool (b : bool)
| ArgFixIt (H : FixItHint)
| ArgDiagnosticName (LH : LoopHintAttr.t).

Record Diagnostic := mkDiagnostic {
  DiagLoc : SourceLocation;
  getID : DiagID;
  DiagArgs : list DiagArg
}.

(** ** Sema *)

Record FunctionScopeInfo := mkFunctionScopeInfo {
  SwitchStack : list Stmt
}.

Record Sema := mkSema {
  getCurFunction : FunctionScopeInfo;
  getLocForEndOfToken : SourceLocation -> SourceLocation;
  Diags : list Diagnostic
}.

(** The state of Sema after the diagnostics [ds] have been reported. *)
Definition report (S : Sema) (ds : list Diagnostic) : Sema :=
  {| getCurFunction := getCurFunction S;
     getLocForEndOfToken := getLocForEndOfToken S;
     Diags := Diags S ++ ds |}.

(** Computations over Sema. *)
Definition M (A : Type) : Type := Sema -> option (A * Sema).

Definition ret {A} (a : A) : M A := fun S => Some (a, S).

Definition bind {A B} (m : M A) (k : A -> M B) : M B :=
  fun S => match m S with
           | Some (a, S') => k a S'
           | None => None
           end.

Notation "x <- m ;; k" := (bind m (fun x => k))
  (at level 61, m at next level, right associativity).
Notation "m ;; k" := (bind m (fun _ => k))
  (at level 61, right associativity).

(** Reading the Sema object. *)
Definition getSema : M Sema := fun S => Some (S, S).

(** Undefined behaviour, or an assertion that does not hold. *)
Definition undefined {A} : M A := fun _ => None.

(** [P->...] for a pointer [P] that may be null. *)
Definition deref {A} (P : option A) : M A :=
  match P with
  | Some a => ret a
  | None => undefined
  end.

(** [assert(C)] *)
Definition assert (C : bool) : M unit :=
  if C then ret tt else undefined.

(** [S.Diag(L, ID) << Args] *)
Definition Diag (L : SourceLocation) (ID : DiagID) (Args : list DiagArg)
  : M unit :=
  fun S => Some (tt, report S [mkDiagnostic L ID Args]).

Definition isSome {A} (o : option A) : bool :=
  match o with Some _ => true | None => false end.

(** ** The fallthrough handler *)

Definition handleFallThroughAttr (St : Stmt) (A : AttributeListT)
    (Range : SourceRange) : M (option Attr) :=
  if negb (isa_NullStmt St) then
    Diag (getBegin (getRange A)) err_fallthrough_attr_wrong_target
         [ArgSourceLocation (getLocStart St)] ;;
    (if isa_SwitchCase St then
       S <- getSema ;;
       let L := getLocForEndOfToken S (getEnd Range) in
       Diag L note_fallthrough_insert_semi_fixit
            [ArgFixIt (CreateInsertion L ";")]
     else ret tt) ;;
    ret None
  else
    S <- getSema ;;
    match SwitchStack (getCurFunction S) with
    | [] =>
        Diag (getBegin (getRange A)) err_fallthrough_attr_outside_switch [] ;;
        ret None
    | _ :: _ =>
        ret (Some (FallThroughAttr (getRange A)
                                   (getAttributeSpellingListIndex A)))
    end.

(** ** The loop hint handler *)

(** The [StringSwitch] over the pragma name that picks the spelling shown in
    the diagnostic. *)
Definition PragmaSpelling (PragmaName : string) : string :=
  if String.eqb PragmaName "unroll" then "#pragma unroll"
  else if String.eqb PragmaName "nounroll" then "#pragma nounroll"
  else "#pragma clang loop".

(** The [StringSwitch] over the option name of [#pragma clang loop]. *)
Definition OptionSwitch (OptionName : string) : LoopHintAttr.OptionType :=
  if String.eqb OptionName "vectorize" then LoopHintAttr.Vectorize
  else if String.eqb OptionName "vectorize_width"
  then LoopHintAttr.VectorizeWidth
  else if String.eqb OptionName "interleave" then LoopHintAttr.Interleave
  else if String.eqb OptionName "interleave_count"
  then LoopHintAttr.InterleaveCount
  else if String.eqb OptionName "unroll" then LoopHintAttr.Unroll
  else if String.eqb OptionName "unroll_count" then LoopHintAttr.UnrollCount
  else LoopHintAttr.Vectorize.

(** The test on the statement class: true when the statement is none of the
    four loops. *)
Definition notLoop (St : Stmt) : bool :=
  negb (StmtClass_eqb (getStmtClass St) DoStmtClass)
  && negb (StmtClass_eqb (getStmtClass St) ForStmtClass)
  && negb (StmtClass_eqb (getStmtClass St) CXXForRangeStmtClass)
  && negb (StmtClass_eqb (getStmtClass St) WhileStmtClass).

(** The choice of [Option] and [Spelling]. *)
Definition selectOption (PragmaName : string)
    (OptionInfo : option IdentifierInfo) (ValueLoc : option IdentifierLoc)
  : M (LoopHintAttr.OptionType * LoopHintAttr.Spelling) :=
  if String.eqb PragmaName "unroll" then
    ret (if isSome ValueLoc then LoopHintAttr.UnrollCount
         else LoopHintAttr.Unroll,
         LoopHintAttr.Pragma_unroll)
  else if String.eqb PragmaName "nounroll" then
    ret (LoopHintAttr.Unroll, LoopHintAttr.Pragma_nounroll)
  else
    OptionName <- deref OptionInfo ;;
    ret (OptionSwitch OptionName, LoopHintAttr.Pragma_clang_loop).

(** The computation of [ValueInt].  [Some v] is the value the attribute is
    built with; [None] is the path that has reported a diagnostic and returns
    [nullptr]. *)
Definition selectValue (Option : LoopHintAttr.OptionType)
    (Spelling : LoopHintAttr.Spelling) (ValueLoc : option IdentifierLoc)
    (ValueInfo : option IdentifierInfo) (ValueExpr : option Expr)
  : M (option Z) :=
  if LoopHintAttr.OptionType_eqb Option LoopHintAttr.Unroll
     && LoopHintAttr.Spelling_eqb Spelling LoopHintAttr.Pragma_unroll then
    ret (Some 1)
  else if LoopHintAttr.OptionType_eqb Option LoopHintAttr.Unroll
          && LoopHintAttr.Spelling_eqb Spelling LoopHintAttr.Pragma_nounroll
  then
    ret (Some 0)
  else if LoopHintAttr.OptionType_eqb Option LoopHintAttr.Vectorize
          || LoopHintAttr.OptionType_eqb Option LoopHintAttr.Interleave
          || LoopHintAttr.OptionType_eqb Option LoopHintAttr.Unroll then
    let TrueKeyword :=
      if LoopHintAttr.OptionType_eqb Option LoopHintAttr.Unroll
      then "full" else "enable" in
    match ValueInfo with
    | None =>
        VL <- deref ValueLoc ;;
        Diag (Loc VL) err_pragma_loop_invalid_keyword [ArgString TrueKeyword] ;;
        ret None
    | Some VI =>
        if String.eqb VI "disable" then ret (Some 0)
        else if String.eqb VI TrueKeyword then ret (Some 1)
        else
          VL <- deref ValueLoc ;;
          Diag (Loc VL) err_pragma_loop_invalid_keyword
               [ArgString TrueKeyword] ;;
          ret None
    end
  else if LoopHintAttr.OptionType_eqb Option LoopHintAttr.VectorizeWidth
          || LoopHintAttr.OptionType_eqb Option LoopHintAttr.InterleaveCount
          || LoopHintAttr.OptionType_eqb Option LoopHintAttr.UnrollCount then
    let invalid : M (option Z) :=
      VL <- deref ValueLoc ;;
      Diag (Loc VL) err_pragma_loop_invalid_value [] ;;
      ret None in
    match ValueExpr with
    | None => invalid
    | Some E =>
        match isIntegerConstantExpr E with
        | None => invalid
        | Some ValueAPS =>
            let ValueInt := toInt (getSExtValue ValueAPS) in
            if ValueInt <? 1 then invalid else ret (Some ValueInt)
        end
    end
  else undefined.

Definition handleLoopHintAttr (St : Stmt) (A : AttributeListT)
    (_ : SourceRange) : M (option Attr) :=
  let PragmaNameLoc := getArgAsIdent A 0%nat in
  OptionLoc <- deref (getArgAsIdent A 1%nat) ;;
  let OptionInfo := Ident OptionLoc in
  let ValueLoc := getArgAsIdent A 2%nat in
  let ValueInfo := match ValueLoc with
                   | Some VL => Ident VL
                   | None => None
                   end in
  let ValueExpr := getArgAsExpr A 3%nat in
  assert (isSome OptionInfo) ;;
  if notLoop St then
    PragmaName <- (PL <- deref PragmaNameLoc ;; deref (Ident PL)) ;;
    Diag (getLocStart St) err_pragma_loop_precedes_nonloop
         [ArgString (PragmaSpelling PragmaName)] ;;
    ret None
  else
    PragmaName <- (PL <- deref PragmaNameLoc ;; deref (Ident PL)) ;;
    OS <- selectOption PragmaName OptionInfo ValueLoc ;;
    let '(Option, Spelling) := OS in
    V <- selectValue Option Spelling ValueLoc ValueInfo ValueExpr ;;
    match V with
    | None => ret None
    | Some ValueInt =>
        ret (Some (LoopHint (LoopHintAttr.CreateImplicit
                               Spelling Option ValueInt (getRange A))))
    end.

(** ** The check for incompatible loop hints *)

(** The local [enum { Vectorize, Interleave, Unroll }]. *)
Inductive Category := Vectorize | Interleave | Unroll.

Definition Category_eqb (a b : Category) : bool :=
  match a, b with
  | Vectorize, Vectorize | Interleave, Interleave | Unroll, Unroll => true
  | _, _ => false
  end.

(** The [switch] that sends an option to its category. *)
Definition CategoryOf (Option : LoopHintAttr.OptionType) : Category :=
  match Option with
  | LoopHintAttr.Vectorize | LoopHintAttr.VectorizeWidth => Vectorize
  | LoopHintAttr.Interleave | LoopHintAttr.InterleaveCount => Interleave
  | LoopHintAttr.Unroll | LoopHintAttr.UnrollCount => Unroll
  end.

(** One entry of [HintAttrs]: the two slots of a category. *)
Record CategoryStateT := mkCategoryState {
  EnableAttr : option LoopHintAttr.t;
  NumericAttr : option LoopHintAttr.t
}.

(** The array [HintAttrs], one entry per category. *)
Record HintAttrsT := mkHintAttrs {
  atVectorize : CategoryStateT;
  atInterleave : CategoryStateT;
  atUnroll : CategoryStateT
}.

Definition HintAttrsInit : HintAttrsT :=
  let empty := mkCategoryState None None in
  mkHintAttrs empty empty empty.

(** [HintAttrs[C]] *)
Definition HintAttrs_get (H : HintAttrsT) (C : Category) : CategoryStateT :=
  match C with
  | Vectorize => atVectorize H
  | Interleave => atInterleave H
  | Unroll => atUnroll H
  end.

(** [HintAttrs[C] = CS] *)
Definition HintAttrs_set (H : HintAttrsT) (C : Category) (CS : CategoryStateT)
  : HintAttrsT :=
  match C with
  | Vectorize => mkHintAttrs CS (atInterleave H) (atUnroll H)
  | Interleave => mkHintAttrs (atVectorize H) CS (atUnroll H)
  | Unroll => mkHintAttrs (atVectorize H) (atInterleave H) CS
  end.

(** The test that sends an option to the enable slot. *)
Definition isEnableOption (Option : LoopHintAttr.OptionType) : bool :=
  LoopHintAttr.OptionType_eqb Option LoopHintAttr.Vectorize
  || LoopHintAttr.OptionType_eqb Option LoopHintAttr.Interleave
  || LoopHintAttr.OptionType_eqb Option LoopHintAttr.Unroll.

(** The body of the loop over [Attrs], for one attribute. *)
Definition CheckAttr (HintAttrs : HintAttrsT) (I : Attr) : M HintAttrsT :=
  match dyn_cast_LoopHintAttr I with
  | None => ret HintAttrs
  | Some LH =>
      let Option := LoopHintAttr.getOption LH in
      let Category := CategoryOf Option in
      let CategoryState := HintAttrs_get HintAttrs Category in
      let OptionLoc := getBegin (LoopHintAttr.getRange LH) in
      let '(PrevAttr, CategoryState) :=
        if isEnableOption Option then
          (EnableAttr CategoryState,
           mkCategoryState (Some LH) (NumericAttr CategoryState))
        else
          (NumericAttr CategoryState,
           mkCategoryState (EnableAttr CategoryState) (Some LH)) in
      match PrevAttr with
      | Some Prev =>
          Diag OptionLoc err_pragma_loop_compatibility
               [ArgBool true; ArgDiagnosticName Prev; ArgDiagnosticName LH]
      | None => ret tt
      end ;;
      match EnableAttr CategoryState, NumericAttr CategoryState with
      | Some Enable, Some Numeric =>
          if Category_eqb Category Unroll
             || (LoopHintAttr.getValue Enable =? 0) then
            Diag OptionLoc err_pragma_loop_compatibility
                 [ArgBool false; ArgDiagnosticName Enable;
                  ArgDiagnosticName Numeric]
          else ret tt
      | _, _ => ret tt
      end ;;
      ret (HintAttrs_set HintAttrs Category CategoryState)
  end.

(** The loop over [Attrs]. *)
Fixpoint CheckLoop (HintAttrs : HintAttrsT) (Attrs : list Attr)
  : M HintAttrsT :=
  match Attrs with
  | [] => ret HintAttrs
  | I0 :: Attrs' =>
      HintAttrs' <- CheckAttr HintAttrs I0 ;;
      CheckLoop HintAttrs' Attrs'
  end.

Definition CheckForIncompatibleAttributes (Attrs : list Attr) : M unit :=
  CheckLoop HintAttrsInit Attrs ;; ret tt.

(** ** The driver *)

Definition ProcessStmtAttribute (St : Stmt) (A : AttributeListT)
    (Range : SourceRange) : M (option Attr) :=
  match getKind A with
  | AttributeList.UnknownAttribute =>
      Diag (getLoc A)
           (if isDeclspecAttribute A then warn_unhandled_ms_attribute_ignored
            else warn_unknown_attribute_ignored)
           [ArgIdentifier (getName A)] ;;
      ret None
  | AttributeList.AT_FallThrough => handleFallThroughAttr St A Range
  | AttributeList.AT_LoopHint => handleLoopHintAttr St A Range
  | AttributeList.AT_Other =>
      Diag (getBegin (getRange A)) err_attribute_invalid_on_stmt
           [ArgIdentifier (getName A); ArgSourceLocation (getLocStart St)] ;;
      ret None
  end.

(** The loop over the attribute list, which is a list linked by [getNext];
    [Attrs] is the vector built so far. *)
Fixpoint ProcessLoop (St : Stmt) (AttrList : list AttributeListT)
    (Range : SourceRange) (Attrs : list Attr) : M (list Attr) :=
  match AttrList with
  | [] => ret Attrs
  | l :: next =>
      a <- ProcessStmtAttribute St l Range ;;
      ProcessLoop St next Range
        match a with
        | Some a => Attrs ++ [a]
        | None => Attrs
        end
  end.

(** What [ProcessStmtAttributes] gives back: the statement itself, or the
    node [ActOnAttributedStmt] builds around it. *)
Inductive StmtResult :=
| PlainStmt (St : Stmt)
| AttributedStmt (AttrLoc : SourceLocation) (Attrs : list Attr) (St : Stmt).

Definition ActOnAttributedStmt (AttrLoc : SourceLocation) (Attrs : list Attr)
    (St : Stmt) : M StmtResult :=
  ret (AttributedStmt AttrLoc Attrs St).

Definition ProcessStmtAttributes (St : Stmt) (AttrList : list AttributeListT)
    (Range : SourceRange) : M StmtResult :=
  Attrs <- ProcessLoop St AttrList Range [] ;;
  CheckForIncompatibleAttributes Attrs ;;
  match Attrs with
  | [] => ret (PlainStmt St)
  | _ :: _ => ActOnAttributedStmt (getBegin Range) Attrs St
  end.

(** ** Vocabulary of the statements *)

(** The four arguments of a loop hint attribute: the pragma name and the
    option name, both with their identifiers, the value argument and the
    value expression, either of which may be null. *)
Definition HasLoopHintArgs (A : AttributeListT) (PragmaName OptionName : string)
    (ValueLoc : option IdentifierLoc) (ValueExpr : option Expr) : Prop :=
  (exists PL, getArgAsIdent A 0%nat = Some PL /\ Ident PL = Some PragmaName)
  /\ (exists OL, getArgAsIdent A 1%nat = Some OL /\ Ident OL = Some OptionName)
  /\ getArgAsIdent A 2%nat = ValueLoc
  /\ getArgAsExpr A 3%nat = ValueExpr.

(** The pragma is [#pragma clang loop]: its name is neither of the two
    unroll pragmas. *)
Definition GenericPragma (PragmaName : string) : Prop :=
  PragmaName <> "unroll" /\ PragmaName <> "nounroll".

(** The keyword that stands for true with an enable-form option. *)
Definition TrueKeywordOf (Option : LoopHintAttr.OptionType) : string :=
  match Option with
  | LoopHintAttr.Unroll => "full"
  | _ => "enable"
  end.

(** The numeric-form options. *)
Definition isNumericOption (Option : LoopHintAttr.OptionType) : bool :=
  match Option with
  | LoopHintAttr.VectorizeWidth | LoopHintAttr.InterleaveCount
  | LoopHintAttr.UnrollCount => true
  | _ => false
  end.

(** The handler's two ways to end without an attribute on a bad value. *)
Definition InvalidKeyword (VL : IdentifierLoc) (TrueKeyword : string)
  : Diagnostic :=
  mkDiagnostic (Loc VL) err_pragma_loop_invalid_keyword [ArgString TrueKeyword].

Definition InvalidValue (VL : IdentifierLoc) : Diagnostic :=
  mkDiagnostic (Loc VL) err_pragma_loop_invalid_value [].

Definition PrecedesNonLoop (St : Stmt) (Pragma : string) : Diagnostic :=
  mkDiagnostic (getLocStart St) err_pragma_loop_precedes_nonloop
               [ArgString Pragma].

Definition WrongTarget (St : Stmt) (A : AttributeListT) : Diagnostic :=
  mkDiagnostic (getBegin (getRange A)) err_fallthrough_attr_wrong_target
               [ArgSourceLocation (getLocStart St)].

Definition InsertSemiNote (L : SourceLocation) : Diagnostic :=
  mkDiagnostic L note_fallthrough_insert_semi_fixit
               [ArgFixIt (CreateInsertion L ";")].

(** The two messages of the compatibility check. *)
Definition DuplicateHint (L : SourceLocation) (Prev Cur : LoopHintAttr.t)
  : Diagnostic :=
  mkDiagnostic L err_pragma_loop_compatibility
               [ArgBool true; ArgDiagnosticName Prev; ArgDiagnosticName Cur].

Definition IncompatibleHint (L : SourceLocation)
    (Enable Numeric : LoopHintAttr.t) : Diagnostic :=
  mkDiagnostic L err_pragma_loop_compatibility
               [ArgBool false; ArgDiagnosticName Enable;
                ArgDiagnosticName Numeric].

Definition isCompatibilityDiag (Duplicate : bool) (d : Diagnostic) : bool :=
  DiagID_eqb (getID d) err_pragma_loop_compatibility
  && match DiagArgs d with
     | ArgBool b :: _ => Bool.eqb b Duplicate
     | _ => false
     end.

Definition isDuplicateHint : Diagnostic -> bool := isCompatibilityDiag true.
Definition isIncompatibleHint : Diagnostic -> bool := isCompatibilityDiag false.

(** The category a compatibility diagnostic is about: that of the first
    hint it names. *)
Definition DiagCategory (d : Diagnostic) : option Category :=
  match DiagArgs d with
  | _ :: ArgDiagnosticName LH :: _ =>
      Some (CategoryOf (LoopHintAttr.getOption LH))
  | _ => None
  end.

Definition aboutCategory (C : Category) (d : Diagnostic) : bool :=
  match DiagCategory d with
  | Some C' => Category_eqb C' C
  | None => false
  end.

(** How many diagnostics of a list are duplicate (or incompatibility)
    messages about the category [C]. *)
Definition countDuplicate (C : Category) (ds : list Diagnostic) : nat :=
  List.length (filter (fun d => isDuplicateHint d && aboutCategory C d) ds).

Definition countIncompatible (C : Category) (ds : list Diagnostic) : nat :=
  List.length (filter (fun d => isIncompatibleHint d && aboutCategory C d) ds).

(** How many loop hints of a list are of category [C]. *)
Definition inCategory (C : Category) (I : Attr) : bool :=
  match dyn_cast_LoopHintAttr I with
  | Some LH => Category_eqb (CategoryOf (LoopHintAttr.getOption LH)) C
  | None => false
  end.

Definition countHints (C : Category) (Attrs : list Attr) : nat :=
  List.length (filter (inCategory C) Attrs).

(** A Sema that has reported nothing yet, to run the check from. *)
Definition Sema0 : Sema :=
  mkSema (mkFunctionScopeInfo []) (fun L => (L + 2)%nat) [].

(** What the loop body reports for one attribute, and the array it leaves. *)
Definition ReportedBy (H : HintAttrsT) (I : Attr) : list Diagnostic :=
  match CheckAttr H I Sema0 with
  | Some (_, S') => Diags S'
  | None => []
  end.

Definition StateAfter (H : HintAttrsT) (I : Attr) : HintAttrsT :=
  match CheckAttr H I Sema0 with
  | Some (H', _) => H'
  | None => H
  end.

(** The same for the whole loop. *)
Fixpoint LoopReported (H : HintAttrsT) (Attrs : list Attr) : list Diagnostic :=
  match Attrs with
  | [] => []
  | I0 :: Attrs' => ReportedBy H I0 ++ LoopReported (StateAfter H I0) Attrs'
  end.

Fixpoint LoopState (H : HintAttrsT) (Attrs : list Attr) : HintAttrsT :=
  match Attrs with
  | [] => H
  | I0 :: Attrs' => LoopState (StateAfter H I0) Attrs'
  end.

(** The handler decodes the attribute: it returns one. *)
Definition Decodes (St : Stmt) (A : AttributeListT) (R : SourceRange)
    (S : Sema) : Prop :=
  exists At S', handleLoopHintAttr St A R S = Some (Some At, S').

(** The statement that the numeric form of [#pragma clang loop] decodes
    exactly when its value expression is there, is an integer constant
    expression, and has a value of at least 1. *)
Definition NumericDecodesIff (St : Stmt) (A : AttributeListT) (R : SourceRange)
    (S : Sema) : Prop :=
  Decodes St A R S
  <-> exists E V, getArgAsExpr A 3%nat = Some E
                  /\ isIntegerConstantExpr E = Some V
                  /\ 1 <= getSExtValue V.

(** The statement that the check reports, for each category, at most one
    duplicate and at most one incompatibility. *)
Definition AtMostOnePerCategory (Attrs : list Attr) (S : Sema) : Prop :=
  forall C ds,
    CheckForIncompatibleAttributes Attrs S = Some (tt, report S ds) ->
    (countDuplicate C ds <= 1)%nat /\ (countIncompatible C ds <= 1)%nat.

(** The slot the loop body reads for a hint before it stores the hint, and
    the entry of the hint's category once it is stored. *)
Definition PrevAttrOf (H : HintAttrsT) (LH : LoopHintAttr.t)
  : option LoopHintAttr.t :=
  let CS := HintAttrs_get H (CategoryOf (LoopHintAttr.getOption LH)) in
  if isEnableOption (LoopHintAttr.getOption LH)
  then EnableAttr CS else NumericAttr CS.

Definition NewCategoryState (H : HintAttrsT) (LH : LoopHintAttr.t)
  : CategoryStateT :=
  let CS := HintAttrs_get H (CategoryOf (LoopHintAttr.getOption LH)) in
  if isEnableOption (LoopHintAttr.getOption LH)
  then mkCategoryState (Some LH) (NumericAttr CS)
  else mkCategoryState (EnableAttr CS) (Some LH).

(** The two slots of the category hold hints, and the category is unroll or
    the hint in the enable slot has the value 0. *)
Definition Conflicting (C : Category) (CS : CategoryStateT) : Prop :=
  exists Enable Numeric,
    EnableAttr CS = Some Enable /\ NumericAttr CS = Some Numeric
    /\ (C = Unroll \/ LoopHintAttr.getValue Enable = 0).

(** Every slot of the array holds a hint of the slot's category. *)
Definition SlotsInCategory (H : HintAttrsT) : Prop :=
  forall C LH,
    EnableAttr (HintAttrs_get H C) = Some LH
    \/ NumericAttr (HintAttrs_get H C) = Some LH ->
    CategoryOf (LoopHintAttr.getOption LH) = C.

(** A slot of the category holds a hint. *)
Definition occupied (H : HintAttrsT) (C : Category) : bool :=
  isSome (EnableAttr (HintAttrs_get H C))
  || isSome (NumericAttr (HintAttrs_get H C)).

(** ** Sample inputs *)

(** A loop hint attribute as the parser builds it, with the pragma name at
    location 1, the option at 2 and the range from 1 to 4. *)
Definition LoopHintAttribute (PragmaName OptionName : string)
    (ValueLoc : option IdentifierLoc) (ValueExpr : option Expr)
  : AttributeListT :=
  mkAttributeList AttributeList.AT_LoopHint "loop" 1%nat
    (mkSourceRange 1%nat 4%nat) false 0%nat
    (fun i => match i with
              | 0%nat => Some (mkIdentifierLoc 1%nat (Some PragmaName))
              | 1%nat => Some (mkIdentifierLoc 2%nat (Some OptionName))
              | 2%nat => ValueLoc
              | _ => None
              end)
    (fun i => match i with
              | 3%nat => ValueExpr
              | _ => None
              end).

(** A value argument that is the keyword [k], and one that is a number. *)
Definition KeywordAt3 (k : string) : IdentifierLoc :=
  mkIdentifierLoc 3%nat (Some k).

Definition NumberAt3 : IdentifierLoc := mkIdentifierLoc 3%nat None.

Definition Constant (v : Z) : Expr := mkExpr (Some (mkAPSInt v)).

Definition WhileLoop : Stmt := mkStmt WhileStmtClass 5%nat.
Definition IfStatement : Stmt := mkStmt IfStmtClass 5%nat.
Definition CaseLabel : Stmt := mkStmt CaseStmtClass 5%nat.

Definition Range0 : SourceRange := mkSourceRange 0%nat 4%nat.

(** A fallthrough attribute, from location 2 to location 3. *)
Definition FallThroughAttribute : AttributeListT :=
  mkAttributeList AttributeList.AT_FallThrough "fallthrough" 2%nat
    (mkSourceRange 2%nat 3%nat) false 0%nat (fun _ => None) (fun _ => None).

(** The attributes of some pragmas. *)
Definition ClangLoopVectorizeEnable : AttributeListT :=
  LoopHintAttribute "loop" "vectorize" (Some (KeywordAt3 "enable")) None.

Definition ClangLoopDistributeEnable : AttributeListT :=
  LoopHintAttribute "loop" "distribute" (Some (KeywordAt3 "enable")) None.

Definition ClangLoopUnrollEnable : AttributeListT :=
  LoopHintAttribute "loop" "unroll" (Some (KeywordAt3 "enable")) None.

Definition ClangLoopVectorizeWidth (v : Z) : AttributeListT :=
  LoopHintAttribute "loop" "vectorize_width" (Some NumberAt3)
                    (Some (Constant v)).

Definition PragmaUnroll : AttributeListT :=
  LoopHintAttribute "unroll" "unroll" None None.

Definition PragmaNoUnroll : AttributeListT :=
  LoopHintAttribute "nounroll" "nounroll" (Some (KeywordAt3 "full"))
                    (Some (Constant 4)).

(** A decoded hint of [#pragma clang loop]. *)
Definition ClangLoopHint (Option : LoopHintAttr.OptionType) (v : Z)
  : LoopHintAttr.t :=
  LoopHintAttr.CreateImplicit LoopHintAttr.Pragma_clang_loop Option v
                              (mkSourceRange 1%nat 4%nat).

(** ** Vocabulary of the further properties *)

(** The diagnostic of a fallthrough attribute that is in no switch. *)
Definition OutsideSwitch (A : AttributeListT) : Diagnostic :=
  mkDiagnostic (getBegin (getRange A)) err_fallthrough_attr_outside_switch [].

(** The diagnostics of an attribute that is not a statement attribute. *)
Definition UnknownAttributeIgnored (A : AttributeListT) : Diagnostic :=
  mkDiagnostic (getLoc A)
    (if isDeclspecAttribute A then warn_unhandled_ms_attribute_ignored
     else warn_unknown_attribute_ignored)
    [ArgIdentifier (getName A)].

Definition InvalidOnStmt (St : Stmt) (A : AttributeListT) : Diagnostic :=
  mkDiagnostic (getBegin (getRange A)) err_attribute_invalid_on_stmt
    [ArgIdentifier (getName A); ArgSourceLocation (getLocStart St)].

(** What a hint built by the loop hint handler looks like: the spelling
    goes with the option, an enable-form value is 0 or 1, a numeric-form
    value is a positive [int]. *)
Definition ValidHint (LH : LoopHintAttr.t) : bool :=
  let v := LoopHintAttr.getValue LH in
  match LoopHintAttr.getSpelling LH, LoopHintAttr.getOption LH with
  | LoopHintAttr.Pragma_nounroll, LoopHintAttr.Unroll => v =? 0
  | LoopHintAttr.Pragma_nounroll, _ => false
  | LoopHintAttr.Pragma_unroll, LoopHintAttr.Unroll => v =? 1
  | LoopHintAttr.Pragma_unroll, LoopHintAttr.UnrollCount =>
      (1 <=? v) && (v <? 2 ^ 31)
  | LoopHintAttr.Pragma_unroll, _ => false
  | LoopHintAttr.Pragma_clang_loop, o =>
      if isEnableOption o then (v =? 0) || (v =? 1)
      else (1 <=? v) && (v <? 2 ^ 31)
  end.

(** The arguments of a loop hint attribute are all the handler reads: the
    pragma name and the option with their identifiers, and for
    [#pragma clang loop] the value argument. *)
Definition WellFormedArgs (A : AttributeListT) : Prop :=
  getKind A = AttributeList.AT_LoopHint ->
  exists P O VL VE,
    HasLoopHintArgs A P O VL VE /\ (GenericPragma P -> VL <> None).

(** An attribute that fits the statement it is attached to: a fallthrough
    attribute sits on a null statement, a loop hint on a loop. *)
Definition FitsStmt (St : Stmt) (At : Attr) : Prop :=
  match At with
  | FallThroughAttr _ _ => isa_NullStmt St = true
  | LoopHint LH => notLoop St = false /\ ValidHint LH = true
  end.

(** The slot of the array that belongs to an option. *)
Definition SlotOf (H : HintAttrsT) (Option : LoopHintAttr.OptionType)
  : option LoopHintAttr.t :=
  let CS := HintAttrs_get H (CategoryOf Option) in
  if isEnableOption Option then EnableAttr CS else NumericAttr CS.

(** The last loop hint of a list that has the option [Option]. *)
Fixpoint LatestWithOption (Option : LoopHintAttr.OptionType)
    (Attrs : list Attr) : option LoopHintAttr.t :=
  match Attrs with
  | [] => None
  | I0 :: Attrs' =>
      match LatestWithOption Option Attrs' with
      | Some LH => Some LH
      | None =>
          match dyn_cast_LoopHintAttr I0 with
          | Some LH =>
              if LoopHintAttr.OptionType_eqb (LoopHintAttr.getOption LH) Option
              then Some LH else None
          | None => None
          end
      end
  end.

(** The enable-form option and the numeric-form option of a category. *)
Definition EnableOptionOf (C : Category) : LoopHintAttr.OptionType :=
  match C with
  | Vectorize => LoopHintAttr.Vectorize
  | Interleave => LoopHintAttr.Interleave
  | Unroll => LoopHintAttr.Unroll
  end.

Definition NumericOptionOf (C : Category) : LoopHintAttr.OptionType :=
  match C with
  | Vectorize => LoopHintAttr.VectorizeWidth
  | Interleave => LoopHintAttr.InterleaveCount
  | Unroll => LoopHintAttr.UnrollCount
  end.

(** The attribute is a loop hint. *)
Definition isLoopHint (I : Attr) : bool := isSome (dyn_cast_LoopHintAttr I).

(** Sample inputs: a null statement, a Sema inside a switch, and
    [#pragma unroll 4]. *)
Definition NullStatement : Stmt := mkStmt NullStmtClass 5%nat.

Definition SemaInSwitch : Sema :=
  mkSema (mkFunctionScopeInfo [mkStmt SwitchStmtClass 1%nat])
         (fun L => (L + 2)%nat) [].

Definition PragmaUnrollCount (v : Z) : AttributeListT :=
  LoopHintAttribute "unroll" "unroll" (Some NumberAt3) (Some (Constant v)).

Definition UnknownAttribute : AttributeListT :=
  mkAttributeList AttributeList.UnknownAttribute "frobnicate" 2%nat
    (mkSourceRange 2%nat 3%nat) false 0%nat (fun _ => None) (fun _ => None).

(** Tactics for the arguments of the sample attributes. *)
Ltac loop_hint_args :=
  split; [eexists; split; reflexivity
         | split; [eexists; split; reflexivity | split; reflexivity]].

Ltac generic_pragma := split; intro; discriminate.

(** * Properties *)

(** ** Reporting *)

Lemma report_nil (S : Sema) : report S [] = S.
Proof. destruct S; unfold report; cbn. now rewrite app_nil_r. Qed.

Lemma report_app (S : Sema) (ds1 ds2 : list Diagnostic) :
  report (report S ds1) ds2 = report S (ds1 ++ ds2).
Proof. unfold report; cbn. now rewrite app_assoc. Qed.

Lemma Diags_report (S : Sema) (ds : list Diagnostic) :
  Diags (report S ds) = (Diags S ++ ds)%list.
Proof. reflexivity. Qed.

Lemma report_inj (S : Sema) (ds1 ds2 : list Diagnostic) :
  report S ds1 = report S ds2 -> ds1 = ds2.
Proof.
  intros E. apply (f_equal Diags) in E. rewrite !Diags_report in E.
  now apply app_inv_head in E.
Qed.

(** ** Comparisons *)

Lemma StmtClass_eqb_eq (a b : StmtClass) : StmtClass_eqb a b = true <-> a = b.
Proof.
  destruct a, b; cbn; split; intros E; try reflexivity; try discriminate.
  - apply Nat.eqb_eq in E. now subst.
  - injection E as ->. apply Nat.eqb_refl.
Qed.

Lemma StmtClass_eqb_neq (a b : StmtClass) :
  StmtClass_eqb a b = false <-> a <> b.
Proof.
  rewrite <- StmtClass_eqb_eq. destruct (StmtClass_eqb a b); split; intro E;
    try reflexivity; try discriminate. now elim E.
Qed.

Lemma notLoop_true (St : Stmt) :
  getStmtClass St <> DoStmtClass -> getStmtClass St <> ForStmtClass ->
  getStmtClass St <> CXXForRangeStmtClass ->
  getStmtClass St <> WhileStmtClass ->
  notLoop St = true.
Proof.
  intros H1 H2 H3 H4. unfold notLoop.
  apply StmtClass_eqb_neq in H1, H2, H3, H4. now rewrite H1, H2, H3, H4.
Qed.

Lemma eqb_neq_false (s t : string) : s <> t -> String.eqb s t = false.
Proof. intro E. now apply String.eqb_neq. Qed.

(** ** The loop hint handler, argument by argument *)

(** With its four arguments in place the handler reads none of them in
    vain: on a statement that is no loop it reports and returns nothing, on
    a loop it selects the option and the value. *)
Lemma handleLoopHintAttr_args (St : Stmt) (A : AttributeListT) (R : SourceRange)
    (P O : string) (VL : option IdentifierLoc) (VE : option Expr) (S : Sema) :
  HasLoopHintArgs A P O VL VE ->
  handleLoopHintAttr St A R S =
  if notLoop St
  then Some (None, report S [PrecedesNonLoop St (PragmaSpelling P)])
  else
    (OS <- selectOption P (Some O) VL ;;
     V <- selectValue (fst OS) (snd OS) VL
                      match VL with Some V => Ident V | None => None end VE ;;
     match V with
     | None => ret None
     | Some ValueInt =>
         ret (Some (LoopHint (LoopHintAttr.CreateImplicit
                                (snd OS) (fst OS) ValueInt (getRange A))))
     end) S.
Proof.
  intros [[PL [HP HPI]] [[OL [HO HOI]] [HV HE]]].
  unfold handleLoopHintAttr, bind. rewrite HO, HP, HV, HE. cbn.
  rewrite HOI, HPI. cbn.
  destruct (notLoop St); [reflexivity|].
  destruct (selectOption P (Some O) VL S) as [[[Op Sp] S1]|]; reflexivity.
Qed.

Lemma selectOption_generic (P O : string) (VL : option IdentifierLoc)
    (S : Sema) :
  GenericPragma P ->
  selectOption P (Some O) VL S
  = Some ((OptionSwitch O, LoopHintAttr.Pragma_clang_loop), S).
Proof.
  intros [H1 H2]. unfold selectOption.
  now rewrite (eqb_neq_false _ _ H1), (eqb_neq_false _ _ H2).
Qed.

(** The loop hint handler on a loop, for [#pragma clang loop]. *)
Lemma handleLoopHintAttr_generic (St : Stmt) (A : AttributeListT)
    (R : SourceRange) (P O : string) (VL : option IdentifierLoc)
    (VE : option Expr) (S : Sema) :
  HasLoopHintArgs A P O VL VE -> GenericPragma P -> notLoop St = false ->
  handleLoopHintAttr St A R S =
  match selectValue (OptionSwitch O) LoopHintAttr.Pragma_clang_loop VL
                    match VL with Some V => Ident V | None => None end VE S with
  | Some (Some ValueInt, S') =>
      Some (Some (LoopHint (LoopHintAttr.CreateImplicit
                              LoopHintAttr.Pragma_clang_loop (OptionSwitch O)
                              ValueInt (getRange A))), S')
  | Some (None, S') => Some (None, S')
  | None => None
  end.
Proof.
  intros HA HG HL. rewrite (handleLoopHintAttr_args _ _ _ _ _ _ _ _ HA), HL.
  unfold bind. rewrite (selectOption_generic _ _ _ _ HG). cbn.
  destruct (selectValue _ _ _ _ _ S) as [[[v|] S']|]; reflexivity.
Qed.

(** When the handler of an attribute returns nothing, the loop of the driver
    goes on to the next attribute with its vector as it was. *)
Lemma ProcessLoop_dropped (St : Stmt) (A : AttributeListT)
    (next : list AttributeListT) (R : SourceRange) (Attrs : list Attr)
    (S S' : Sema) :
  ProcessStmtAttribute St A R S = Some (None, S') ->
  ProcessLoop St (A :: next) R Attrs S = ProcessLoop St next R Attrs S'.
Proof. intros E. cbn. unfold bind. now rewrite E. Qed.

(** ** The fallthrough handler *)

(** C5. A fallthrough attribute on a statement that is not a null statement
    is rejected: the handler reports the wrong-target error at the beginning
    of the attribute and returns no attribute.  When the statement is a case
    or default label it reports, after the error, the note that carries the
    fix-it inserting a semicolon, placed at the end of the token that ends
    the source range the handler was given for the attribute. *)
Theorem fallthrough_wrong_target (St : Stmt) (A : AttributeListT)
    (Range : SourceRange) (S : Sema) :
  getStmtClass St <> NullStmtClass ->
  let L := getLocForEndOfToken S (getEnd Range) in
  handleFallThroughAttr St A Range S
  = Some (None, report S (WrongTarget St A ::
                          if isa_SwitchCase St then [InsertSemiNote L] else []))
  /\ (getStmtClass St = CaseStmtClass \/ getStmtClass St = DefaultStmtClass ->
      handleFallThroughAttr St A Range S
      = Some (None, report S [WrongTarget St A; InsertSemiNote L])
      /\ InsertSemiNote L
         = mkDiagnostic L note_fallthrough_insert_semi_fixit
                        [ArgFixIt (CreateInsertion L ";")])
  /\ (getStmtClass St <> CaseStmtClass -> getStmtClass St <> DefaultStmtClass ->
      handleFallThroughAttr St A Range S
      = Some (None, report S [WrongTarget St A])).
Proof.
  intros HN L.
  assert (E : handleFallThroughAttr St A Range S
              = Some (None, report S (WrongTarget St A ::
                   if isa_SwitchCase St then [InsertSemiNote L] else []))).
  { unfold handleFallThroughAttr, isa_NullStmt.
    apply StmtClass_eqb_neq in HN. rewrite HN. cbn. unfold bind, Diag. cbn.
    destruct (isa_SwitchCase St); cbn; now rewrite ?report_app. }
  split; [exact E|]. split.
  - intros HC. split; [|reflexivity]. rewrite E.
    unfold isa_SwitchCase. destruct HC as [HC|HC]; rewrite HC; reflexivity.
  - intros H1 H2. rewrite E. unfold isa_SwitchCase.
    apply StmtClass_eqb_neq in H1, H2. now rewrite H1, H2.
Qed.

(** ** The loop hint handler *)

(** C6. A loop hint attribute on a statement that is not a do, for,
    range-based for or while statement is rejected: the handler reports
    that the pragma precedes a non-loop, at the start of the statement, with
    the spelling ["#pragma unroll"] for the pragma name [unroll],
    ["#pragma nounroll"] for [nounroll] and ["#pragma clang loop"] for any
    other name; it returns no attribute, and the driver adds nothing to the
    attributes of the statement. *)
Theorem loop_hint_precedes_nonloop (St : Stmt) (A : AttributeListT)
    (R : SourceRange) (P O : string) (VL : option IdentifierLoc)
    (VE : option Expr) (S : Sema) :
  getStmtClass St <> DoStmtClass -> getStmtClass St <> ForStmtClass ->
  getStmtClass St <> CXXForRangeStmtClass ->
  getStmtClass St <> WhileStmtClass ->
  HasLoopHintArgs A P O VL VE ->
  exists Pragma,
    handleLoopHintAttr St A R S
    = Some (None, report S [PrecedesNonLoop St Pragma])
    /\ (P = "unroll" -> Pragma = "#pragma unroll")
    /\ (P = "nounroll" -> Pragma = "#pragma nounroll")
    /\ (P <> "unroll" -> P <> "nounroll" -> Pragma = "#pragma clang loop")
    /\ (getKind A = AttributeList.AT_LoopHint ->
        forall next Attrs,
          ProcessLoop St (A :: next) R Attrs S
          = ProcessLoop St next R Attrs (report S [PrecedesNonLoop St Pragma])).
Proof.
  intros H1 H2 H3 H4 HA. exists (PragmaSpelling P).
  assert (E : handleLoopHintAttr St A R S
              = Some (None, report S [PrecedesNonLoop St (PragmaSpelling P)])).
  { rewrite (handleLoopHintAttr_args _ _ _ _ _ _ _ _ HA).
    now rewrite (notLoop_true _ H1 H2 H3 H4). }
  split; [exact E|]. repeat split.
  - intros ->. reflexivity.
  - intros ->. reflexivity.
  - intros N1 N2. unfold PragmaSpelling.
    now rewrite (eqb_neq_false _ _ N1), (eqb_neq_false _ _ N2).
  - intros HK next Attrs. apply ProcessLoop_dropped.
    unfold ProcessStmtAttribute. now rewrite HK.
Qed.

(** C7. [#pragma unroll] without a value argument, on a loop, decodes to
    the hint with spelling [Pragma_unroll], option [Unroll] and value 1, and
    nothing is reported. *)
Theorem pragma_unroll_plain (St : Stmt) (A : AttributeListT) (R : SourceRange)
    (O : string) (VE : option Expr) (S : Sema) :
  notLoop St = false ->
  HasLoopHintArgs A "unroll" O None VE ->
  handleLoopHintAttr St A R S
  = Some (Some (LoopHint (LoopHintAttr.CreateImplicit
                            LoopHintAttr.Pragma_unroll LoopHintAttr.Unroll 1
                            (getRange A))), S).
Proof.
  intros HL HA. rewrite (handleLoopHintAttr_args _ _ _ _ _ _ _ _ HA), HL.
  reflexivity.
Qed.

(** C8. [#pragma nounroll], on a loop, decodes to the hint with spelling
    [Pragma_nounroll], option [Unroll] and value 0, whatever the value
    argument and the value expression are, and nothing is reported. *)
Theorem pragma_nounroll (St : Stmt) (A : AttributeListT) (R : SourceRange)
    (O : string) (VL : option IdentifierLoc) (VE : option Expr) (S : Sema) :
  notLoop St = false ->
  HasLoopHintArgs A "nounroll" O VL VE ->
  handleLoopHintAttr St A R S
  = Some (Some (LoopHint (LoopHintAttr.CreateImplicit
                            LoopHintAttr.Pragma_nounroll LoopHintAttr.Unroll 0
                            (getRange A))), S).
Proof.
  intros HL HA. rewrite (handleLoopHintAttr_args _ _ _ _ _ _ _ _ HA), HL.
  reflexivity.
Qed.

(** C9. For [#pragma clang loop] the option is looked up by its exact
    name among [vectorize], [vectorize_width], [interleave],
    [interleave_count], [unroll] and [unroll_count]; any other name gives
    [Vectorize].  The handler goes on with the option so found, so that an
    attribute with an unknown option name is decoded as a [vectorize] hint
    and not rejected for its name. *)
Theorem option_name_lookup (St : Stmt) (A : AttributeListT) (R : SourceRange)
    (P O : string) (VL : option IdentifierLoc) (VE : option Expr) (S : Sema) :
  HasLoopHintArgs A P O VL VE -> GenericPragma P -> notLoop St = false ->
  OptionSwitch "vectorize" = LoopHintAttr.Vectorize
  /\ OptionSwitch "vectorize_width" = LoopHintAttr.VectorizeWidth
  /\ OptionSwitch "interleave" = LoopHintAttr.Interleave
  /\ OptionSwitch "interleave_count" = LoopHintAttr.InterleaveCount
  /\ OptionSwitch "unroll" = LoopHintAttr.Unroll
  /\ OptionSwitch "unroll_count" = LoopHintAttr.UnrollCount
  /\ (O <> "vectorize" -> O <> "vectorize_width" -> O <> "interleave" ->
      O <> "interleave_count" -> O <> "unroll" -> O <> "unroll_count" ->
      OptionSwitch O = LoopHintAttr.Vectorize)
  /\ selectOption P (Some O) VL S
     = Some ((OptionSwitch O, LoopHintAttr.Pragma_clang_loop), S)
  /\ (forall At S', handleLoopHintAttr St A R S = Some (Some At, S') ->
      exists v, At = LoopHint (LoopHintAttr.CreateImplicit
                                 LoopHintAttr.Pragma_clang_loop (OptionSwitch O)
                                 v (getRange A)))
  /\ (OptionSwitch O = LoopHintAttr.Vectorize ->
      forall VI, VL = Some VI -> Ident VI = Some "enable" ->
      handleLoopHintAttr St A R S
      = Some (Some (LoopHint (LoopHintAttr.CreateImplicit
                                LoopHintAttr.Pragma_clang_loop
                                LoopHintAttr.Vectorize 1 (getRange A))), S)).
Proof.
  intros HA HG HL. repeat (split; [reflexivity|]). split.
  { intros N1 N2 N3 N4 N5 N6. unfold OptionSwitch.
    now rewrite (eqb_neq_false _ _ N1), (eqb_neq_false _ _ N2),
      (eqb_neq_false _ _ N3), (eqb_neq_false _ _ N4), (eqb_neq_false _ _ N5),
      (eqb_neq_false _ _ N6). }
  split; [now apply selectOption_generic|].
  rewrite (handleLoopHintAttr_generic _ _ _ _ _ _ _ _ HA HG HL). split.
  - intros At S' E.
    destruct (selectValue _ _ _ _ _ S) as [[[v|] S1]|]; inversion E; subst.
    now exists v.
  - intros HV VI -> HI. rewrite HV, HI. reflexivity.
Qed.

(** *** Enable-form options *)

Lemma TrueKeywordOf_eq (Option : LoopHintAttr.OptionType) :
  (if LoopHintAttr.OptionType_eqb Option LoopHintAttr.Unroll
   then "full" else "enable") = TrueKeywordOf Option.
Proof. now destruct Option. Qed.

Lemma isEnableOption_cases (Option : LoopHintAttr.OptionType) :
  isEnableOption Option = true ->
  Option = LoopHintAttr.Vectorize \/ Option = LoopHintAttr.Interleave
  \/ Option = LoopHintAttr.Unroll.
Proof. destruct Option; cbn; intros E; try discriminate; auto. Qed.

(** The value of an enable-form option of [#pragma clang loop], when the
    value argument is there. *)
Lemma selectValue_enable (Option : LoopHintAttr.OptionType) (VL : IdentifierLoc)
    (VE : option Expr) (S : Sema) :
  isEnableOption Option = true ->
  selectValue Option LoopHintAttr.Pragma_clang_loop (Some VL) (Ident VL) VE S
  = match Ident VL with
    | None => Some (None, report S [InvalidKeyword VL (TrueKeywordOf Option)])
    | Some VI =>
        if String.eqb VI "disable" then Some (Some 0, S)
        else if String.eqb VI (TrueKeywordOf Option) then Some (Some 1, S)
        else Some (None, report S [InvalidKeyword VL (TrueKeywordOf Option)])
    end.
Proof.
  intros HE. destruct (isEnableOption_cases _ HE) as [-> | [-> | ->]];
    cbn; destruct (Ident VL) as [VI|]; try reflexivity;
    destruct (String.eqb VI "disable"); try reflexivity;
    match goal with |- context [String.eqb VI ?k] =>
      destruct (String.eqb VI k) end; reflexivity.
Qed.

(** C3. For [#pragma clang loop] with an enable-form option ([Vectorize],
    [Interleave] or [Unroll]) on a loop, the true keyword is ["full"] for
    [Unroll] and ["enable"] for the other two; the keyword ["disable"]
    decodes to the value 0 and the true keyword to the value 1, with nothing
    reported; a value argument with any other keyword, or with no keyword at
    all, makes the handler report an invalid keyword, naming the true
    keyword, and return no attribute, after which the driver goes on with
    the attributes that follow, its vector of attributes unchanged. *)
Theorem enable_form_keyword (St : Stmt) (A : AttributeListT) (R : SourceRange)
    (P O : string) (VL : IdentifierLoc) (VE : option Expr) (S : Sema) :
  HasLoopHintArgs A P O (Some VL) VE -> GenericPragma P -> notLoop St = false ->
  isEnableOption (OptionSwitch O) = true ->
  let Option := OptionSwitch O in
  let TrueKeyword := TrueKeywordOf Option in
  let Decoded v :=
    Some (Some (LoopHint (LoopHintAttr.CreateImplicit
                            LoopHintAttr.Pragma_clang_loop Option v
                            (getRange A))), S) in
  (Option = LoopHintAttr.Unroll -> TrueKeyword = "full")
  /\ (Option = LoopHintAttr.Vectorize \/ Option = LoopHintAttr.Interleave ->
      TrueKeyword = "enable")
  /\ (Ident VL = Some "disable" -> handleLoopHintAttr St A R S = Decoded 0)
  /\ (Ident VL = Some TrueKeyword -> handleLoopHintAttr St A R S = Decoded 1)
  /\ (Ident VL = None
      \/ (exists k, Ident VL = Some k /\ k <> "disable" /\ k <> TrueKeyword) ->
      handleLoopHintAttr St A R S
      = Some (None, report S [InvalidKeyword VL TrueKeyword])
      /\ (getKind A = AttributeList.AT_LoopHint ->
          forall next Attrs,
            ProcessLoop St (A :: next) R Attrs S
            = ProcessLoop St next R Attrs
                          (report S [InvalidKeyword VL TrueKeyword]))).
Proof.
  intros HA HG HL HE Option TrueKeyword Decoded.
  pose proof (handleLoopHintAttr_generic St A R P O _ VE S HA HG HL) as E.
  cbv beta iota in E. rewrite (selectValue_enable _ VL VE S HE) in E.
  fold Option in E. fold TrueKeyword in E.
  split; [intros HU; subst TrueKeyword; now rewrite HU|].
  split; [intros [HU|HU]; subst TrueKeyword; now rewrite HU|].
  split; [|split].
  - intros HI. rewrite E, HI. reflexivity.
  - intros HI. rewrite E, HI.
    destruct (String.eqb TrueKeyword "disable") eqn:D.
    + apply String.eqb_eq in D. subst TrueKeyword.
      destruct (isEnableOption_cases _ HE) as [H1 | [H1 | H1]];
        fold Option in H1; rewrite H1 in D; discriminate.
    + now rewrite String.eqb_refl.
  - intros HI.
    assert (E' : handleLoopHintAttr St A R S
                 = Some (None, report S [InvalidKeyword VL TrueKeyword])).
    { rewrite E. destruct HI as [HI | [k [HI [N1 N2]]]]; rewrite HI;
        [reflexivity|].
      now rewrite (eqb_neq_false _ _ N1), (eqb_neq_false _ _ N2). }
    split; [exact E'|]. intros HK next Attrs. apply ProcessLoop_dropped.
    unfold ProcessStmtAttribute. now rewrite HK.
Qed.

(** *** Numeric-form options *)

Lemma toInt_range (x : Z) : - 2 ^ 31 <= toInt x < 2 ^ 31.
Proof.
  unfold toInt. pose proof (Z.mod_pos_bound (x + 2 ^ 31) (2 ^ 32)). lia.
Qed.

Lemma toInt_congr (x : Z) : toInt x mod 2 ^ 32 = x mod 2 ^ 32.
Proof.
  unfold toInt.
  rewrite Zminus_mod, Zmod_mod, <- Zminus_mod. f_equal. lia.
Qed.

Lemma toInt_small (x : Z) : - 2 ^ 31 <= x < 2 ^ 31 -> toInt x = x.
Proof. intros H. unfold toInt. rewrite Z.mod_small; lia. Qed.

(** The value of a numeric-form option, when the value argument is there. *)
Lemma selectValue_numeric (Option : LoopHintAttr.OptionType)
    (Sp : LoopHintAttr.Spelling) (VL : IdentifierLoc) (VE : option Expr)
    (S : Sema) :
  isNumericOption Option = true ->
  selectValue Option Sp (Some VL) (Ident VL) VE S
  = match VE with
    | None => Some (None, report S [InvalidValue VL])
    | Some E =>
        match isIntegerConstantExpr E with
        | None => Some (None, report S [InvalidValue VL])
        | Some ValueAPS =>
            if toInt (getSExtValue ValueAPS) <? 1
            then Some (None, report S [InvalidValue VL])
            else Some (Some (toInt (getSExtValue ValueAPS)), S)
        end
    end.
Proof.
  intros HN. destruct Option; try discriminate HN; cbn;
    (destruct VE as [E|]; [|reflexivity]);
    (destruct (isIntegerConstantExpr E) as [V|]; [|reflexivity]);
    destruct (toInt (getSExtValue V) <? 1); reflexivity.
Qed.

(** The loop hint handler on a numeric-form option of [#pragma clang loop]. *)
Lemma handleLoopHintAttr_numeric (St : Stmt) (A : AttributeListT)
    (R : SourceRange) (P O : string) (VL : IdentifierLoc) (VE : option Expr)
    (S : Sema) :
  HasLoopHintArgs A P O (Some VL) VE -> GenericPragma P -> notLoop St = false ->
  isNumericOption (OptionSwitch O) = true ->
  handleLoopHintAttr St A R S
  = match VE with
    | None => Some (None, report S [InvalidValue VL])
    | Some E =>
        match isIntegerConstantExpr E with
        | None => Some (None, report S [InvalidValue VL])
        | Some ValueAPS =>
            if toInt (getSExtValue ValueAPS) <? 1
            then Some (None, report S [InvalidValue VL])
            else Some (Some (LoopHint (LoopHintAttr.CreateImplicit
                               LoopHintAttr.Pragma_clang_loop (OptionSwitch O)
                               (toInt (getSExtValue ValueAPS)) (getRange A))),
                       S)
        end
    end.
Proof.
  intros HA HG HL HN.
  rewrite (handleLoopHintAttr_generic _ _ _ _ _ _ _ _ HA HG HL).
  cbv beta iota. rewrite (selectValue_numeric _ _ VL VE S HN).
  destruct VE as [E|]; [|reflexivity].
  destruct (isIntegerConstantExpr E) as [V|]; [|reflexivity].
  destruct (toInt (getSExtValue V) <? 1); reflexivity.
Qed.

(** The handler reads the location of the value argument when it reports a
    bad keyword or a bad value.  With a null value argument that read is
    undefined; the statements about [#pragma clang loop] take the value
    argument to be there: only then is the handler's behaviour defined. *)
Lemma clang_loop_reads_value_argument (St : Stmt) (A : AttributeListT)
    (R : SourceRange) (P O : string) (VE : option Expr) (S : Sema) :
  HasLoopHintArgs A P O None VE -> GenericPragma P -> notLoop St = false ->
  (isEnableOption (OptionSwitch O) = true -> handleLoopHintAttr St A R S = None)
  /\ (isNumericOption (OptionSwitch O) = true -> VE = None ->
      handleLoopHintAttr St A R S = None).
Proof.
  intros HA HG HL.
  rewrite (handleLoopHintAttr_generic _ _ _ _ _ _ _ _ HA HG HL).
  split.
  - intros HE. destruct (isEnableOption_cases _ HE) as [-> | [-> | ->]];
      reflexivity.
  - intros HN ->. destruct (OptionSwitch O); try discriminate HN; reflexivity.
Qed.

(** C10. For a numeric-form option of [#pragma clang loop] on a loop,
    with a constant value expression, the value compared with 1 and stored
    in the hint is the constant's sign-extended value converted to a 32-bit
    [int], that is the one number between -2^31 and 2^31 - 1 congruent to it
    modulo 2^32.  So a constant v with 1 <= v < 2^31 is stored as v, while
    outside that range it is the converted value that decides: the constant
    2^32 + 1 is accepted and stored as 1. *)
Theorem numeric_value_is_truncated (St : Stmt) (A : AttributeListT)
    (R : SourceRange) (P O : string) (VL : IdentifierLoc) (E : Expr)
    (V : APSInt) (S : Sema) :
  HasLoopHintArgs A P O (Some VL) (Some E) -> GenericPragma P ->
  notLoop St = false -> isNumericOption (OptionSwitch O) = true ->
  isIntegerConstantExpr E = Some V ->
  let v := getSExtValue V in
  let Decoded x :=
    Some (Some (LoopHint (LoopHintAttr.CreateImplicit
                            LoopHintAttr.Pragma_clang_loop (OptionSwitch O) x
                            (getRange A))), S) in
  (- 2 ^ 31 <= toInt v < 2 ^ 31 /\ toInt v mod 2 ^ 32 = v mod 2 ^ 32)
  /\ (1 <= toInt v -> handleLoopHintAttr St A R S = Decoded (toInt v))
  /\ (toInt v < 1 ->
      handleLoopHintAttr St A R S = Some (None, report S [InvalidValue VL]))
  /\ (1 <= v < 2 ^ 31 -> handleLoopHintAttr St A R S = Decoded v)
  /\ (v = 2 ^ 32 + 1 -> handleLoopHintAttr St A R S = Decoded 1).
Proof.
  intros HA HG HL HN HC v Decoded.
  pose proof (handleLoopHintAttr_numeric St A R P O VL _ S HA HG HL HN) as Eq.
  cbv beta iota in Eq. rewrite HC in Eq. fold v in Eq.
  split; [split; [apply toInt_range | apply toInt_congr]|].
  assert (Hge : 1 <= toInt v ->
                handleLoopHintAttr St A R S = Decoded (toInt v)).
  { intros H. rewrite Eq.
    destruct (Z.ltb_spec (toInt v) 1); [lia|reflexivity]. }
  split; [exact Hge|]. split; [|split].
  - intros H. rewrite Eq. destruct (Z.ltb_spec (toInt v) 1); [reflexivity|lia].
  - intros H. pose proof Hge as G. rewrite (toInt_small v) in G by lia.
    apply G. lia.
  - intros H. assert (T : toInt v = 1) by (rewrite H; reflexivity).
    pose proof Hge as G. rewrite T in G. apply G. lia.
Qed.

(** C4, as amended.  For a numeric-form option of [#pragma clang loop] on
    a loop, when the value of a constant expression fits the 32-bit [int]
    the hint stores, decoding succeeds exactly when the value expression is
    there, is an integer constant expression and has a value of at least 1;
    then the hint holds that value.  With no expression, with one that is no
    constant, or with a value below 1, the handler reports an invalid value
    and returns no attribute. *)
Theorem numeric_form_in_int_range (St : Stmt) (A : AttributeListT)
    (R : SourceRange) (P O : string) (VL : IdentifierLoc) (VE : option Expr)
    (S : Sema) :
  HasLoopHintArgs A P O (Some VL) VE -> GenericPragma P ->
  notLoop St = false -> isNumericOption (OptionSwitch O) = true ->
  (forall E V, VE = Some E -> isIntegerConstantExpr E = Some V ->
               - 2 ^ 31 <= getSExtValue V < 2 ^ 31) ->
  let Invalid := Some (None, report S [InvalidValue VL]) in
  (Decodes St A R S
   <-> exists E V, VE = Some E /\ isIntegerConstantExpr E = Some V
                   /\ 1 <= getSExtValue V)
  /\ (forall E V, VE = Some E -> isIntegerConstantExpr E = Some V ->
      1 <= getSExtValue V ->
      handleLoopHintAttr St A R S
      = Some (Some (LoopHint (LoopHintAttr.CreateImplicit
                                LoopHintAttr.Pragma_clang_loop (OptionSwitch O)
                                (getSExtValue V) (getRange A))), S))
  /\ (VE = None -> handleLoopHintAttr St A R S = Invalid)
  /\ (forall E, VE = Some E -> isIntegerConstantExpr E = None ->
      handleLoopHintAttr St A R S = Invalid)
  /\ (forall E V, VE = Some E -> isIntegerConstantExpr E = Some V ->
      getSExtValue V < 1 -> handleLoopHintAttr St A R S = Invalid).
Proof.
  intros HA HG HL HN HR Invalid.
  pose proof (handleLoopHintAttr_numeric St A R P O VL VE S HA HG HL HN) as Eq.
  assert (Hok : forall E V, VE = Some E -> isIntegerConstantExpr E = Some V ->
      1 <= getSExtValue V ->
      handleLoopHintAttr St A R S
      = Some (Some (LoopHint (LoopHintAttr.CreateImplicit
                                LoopHintAttr.Pragma_clang_loop (OptionSwitch O)
                                (getSExtValue V) (getRange A))), S)).
  { intros E V HE HC Hv. rewrite Eq, HE, HC.
    rewrite (toInt_small _ (HR E V HE HC)).
    destruct (Z.ltb_spec (getSExtValue V) 1); [lia|reflexivity]. }
  split; [|split; [exact Hok|split; [|split]]].
  - split.
    + intros [At [S' D]]. rewrite Eq in D.
      destruct VE as [E|]; [|discriminate D].
      destruct (isIntegerConstantExpr E) as [V|] eqn:HC; [|discriminate D].
      rewrite (toInt_small _ (HR E V eq_refl HC)) in D.
      destruct (Z.ltb_spec (getSExtValue V) 1); [discriminate D|].
      exists E, V. auto.
    + intros [E [V [HE [HC Hv]]]]. do 2 eexists. now apply (Hok E V).
  - intros HE. rewrite Eq, HE. reflexivity.
  - intros E HE HC. rewrite Eq, HE, HC. reflexivity.
  - intros E V HE HC Hv. rewrite Eq, HE, HC.
    rewrite (toInt_small _ (HR E V HE HC)).
    destruct (Z.ltb_spec (getSExtValue V) 1); [reflexivity|lia].
Qed.

(** What the handler does with
    [#pragma clang loop vectorize_width(4294967296)] before a while loop. *)
Example vectorize_width_two_pow_32 :
  toInt 4294967296 = 0
  /\ handleLoopHintAttr WhileLoop (ClangLoopVectorizeWidth 4294967296)
                        Range0 Sema0
     = Some (None, report Sema0 [InvalidValue NumberAt3]).
Proof. split; reflexivity. Qed.

(** C4, as stated, fails: [#pragma clang loop vectorize_width(4294967296)]
    on a while loop has a constant value expression of value 2^32, which is
    at least 1, and yet it is not decoded: converted to [int] the value
    is 0. *)
Lemma numeric_form_rejects_two_pow_32 :
  ~ NumericDecodesIff WhileLoop
      (ClangLoopVectorizeWidth 4294967296) Range0 Sema0.
Proof.
  intros [_ H].
  destruct H as [At [S' D]].
  - exists (Constant 4294967296), (mkAPSInt 4294967296).
    repeat split. cbn. lia.
  - vm_compute in D. discriminate D.
Qed.

(** ** The check for incompatible loop hints *)

Lemma Category_eqb_eq (a b : Category) : Category_eqb a b = true <-> a = b.
Proof. destruct a, b; cbn; split; intros E; try reflexivity; discriminate. Qed.

Lemma Category_eqb_refl (a : Category) : Category_eqb a a = true.
Proof. now destruct a. Qed.

Lemma Category_eqb_neq (a b : Category) : a <> b -> Category_eqb a b = false.
Proof.
  intros N. destruct (Category_eqb a b) eqn:E; [|reflexivity].
  apply Category_eqb_eq in E. contradiction.
Qed.

Lemma HintAttrs_get_set_same (H : HintAttrsT) (C : Category)
    (CS : CategoryStateT) :
  HintAttrs_get (HintAttrs_set H C CS) C = CS.
Proof. now destruct C. Qed.

Lemma HintAttrs_get_set_other (H : HintAttrsT) (C C' : Category)
    (CS : CategoryStateT) :
  C <> C' -> HintAttrs_get (HintAttrs_set H C CS) C' = HintAttrs_get H C'.
Proof. destruct C, C'; intros N; try reflexivity; now elim N. Qed.

(** What the loop body does with a loop hint: it stores the hint in its
    slot, and reports first the duplicate, when the slot was taken, then the
    incompatibility, when the two slots hold conflicting hints. *)
Lemma CheckAttr_LoopHint (H : HintAttrsT) (LH : LoopHintAttr.t) (S : Sema) :
  let C := CategoryOf (LoopHintAttr.getOption LH) in
  let L := getBegin (LoopHintAttr.getRange LH) in
  let CS := NewCategoryState H LH in
  CheckAttr H (LoopHint LH) S
  = Some (HintAttrs_set H C CS,
          report S
            (match PrevAttrOf H LH with
             | Some Prev => [DuplicateHint L Prev LH]
             | None => []
             end
             ++ match EnableAttr CS, NumericAttr CS with
                | Some Enable, Some Numeric =>
                    if Category_eqb C Unroll
                       || (LoopHintAttr.getValue Enable =? 0)
                    then [IncompatibleHint L Enable Numeric] else []
                | _, _ => []
                end)).
Proof.
  intros C L CS. subst CS. unfold CheckAttr, PrevAttrOf, NewCategoryState.
  cbn [dyn_cast_LoopHintAttr]. fold C. fold L.
  destruct (isEnableOption (LoopHintAttr.getOption LH));
    cbn [EnableAttr NumericAttr].
  - destruct (EnableAttr (HintAttrs_get H C)) as [P|];
      destruct (NumericAttr (HintAttrs_get H C)) as [N|];
      unfold bind, Diag, ret;
      try destruct (Category_eqb C Unroll || (LoopHintAttr.getValue LH =? 0));
      cbn; rewrite ?report_app, ?report_nil; reflexivity.
  - destruct (NumericAttr (HintAttrs_get H C)) as [P|];
      destruct (EnableAttr (HintAttrs_get H C)) as [E|]; unfold bind, Diag, ret;
      try destruct (Category_eqb C Unroll || (LoopHintAttr.getValue E =? 0));
      cbn; rewrite ?report_app, ?report_nil; reflexivity.
Qed.

Lemma CheckAttr_other (H : HintAttrsT) (R : SourceRange) (n : nat) (S : Sema) :
  CheckAttr H (FallThroughAttr R n) S = Some (H, S).
Proof. reflexivity. Qed.

(** The loop body never fails, and what it reports and leaves does not
    depend on what Sema has reported before. *)
Lemma CheckAttr_run (H : HintAttrsT) (I : Attr) (S : Sema) :
  CheckAttr H I S = Some (StateAfter H I, report S (ReportedBy H I)).
Proof.
  unfold StateAfter, ReportedBy. destruct I as [R n|LH].
  - rewrite !CheckAttr_other. cbn. now rewrite report_nil.
  - rewrite !CheckAttr_LoopHint. reflexivity.
Qed.

Lemma CheckLoop_run (Attrs : list Attr) (H : HintAttrsT) (S : Sema) :
  CheckLoop H Attrs S
  = Some (LoopState H Attrs, report S (LoopReported H Attrs)).
Proof.
  revert H S. induction Attrs as [|I Attrs IH]; intros H S; cbn.
  - unfold ret. now rewrite report_nil.
  - unfold bind. rewrite CheckAttr_run, IH, report_app. reflexivity.
Qed.

Lemma CheckForIncompatibleAttributes_run (Attrs : list Attr) (S : Sema) :
  CheckForIncompatibleAttributes Attrs S
  = Some (tt, report S (LoopReported HintAttrsInit Attrs)).
Proof.
  unfold CheckForIncompatibleAttributes, bind. now rewrite CheckLoop_run.
Qed.

Lemma LoopReported_app (Attrs1 Attrs2 : list Attr) (H : HintAttrsT) :
  LoopReported H (Attrs1 ++ Attrs2)
  = (LoopReported H Attrs1 ++ LoopReported (LoopState H Attrs1) Attrs2)%list.
Proof.
  revert H. induction Attrs1 as [|I Attrs1 IH]; intros H; cbn; [reflexivity|].
  now rewrite IH, app_assoc.
Qed.

Lemma ReportedBy_LoopHint (H : HintAttrsT) (LH : LoopHintAttr.t) :
  let C := CategoryOf (LoopHintAttr.getOption LH) in
  let L := getBegin (LoopHintAttr.getRange LH) in
  let CS := NewCategoryState H LH in
  ReportedBy H (LoopHint LH)
  = (match PrevAttrOf H LH with
     | Some Prev => [DuplicateHint L Prev LH]
     | None => []
     end
     ++ match EnableAttr CS, NumericAttr CS with
        | Some Enable, Some Numeric =>
            if Category_eqb C Unroll || (LoopHintAttr.getValue Enable =? 0)
            then [IncompatibleHint L Enable Numeric] else []
        | _, _ => []
        end)%list.
Proof. unfold ReportedBy. rewrite CheckAttr_LoopHint. reflexivity. Qed.

Lemma StateAfter_LoopHint (H : HintAttrsT) (LH : LoopHintAttr.t) :
  StateAfter H (LoopHint LH)
  = HintAttrs_set H (CategoryOf (LoopHintAttr.getOption LH))
                  (NewCategoryState H LH).
Proof. unfold StateAfter. rewrite CheckAttr_LoopHint. reflexivity. Qed.

Lemma conflict_test (C : Category) (v : Z) :
  Category_eqb C Unroll || (v =? 0) = true <-> C = Unroll \/ v = 0.
Proof.
  rewrite orb_true_iff, Category_eqb_eq, Z.eqb_eq. reflexivity.
Qed.

(** Of what the loop body reports for a loop hint, the incompatibility
    messages are the second part, the duplicate messages the first. *)
Lemma ReportedBy_incompatible (H : HintAttrsT) (LH : LoopHintAttr.t) :
  let C := CategoryOf (LoopHintAttr.getOption LH) in
  let L := getBegin (LoopHintAttr.getRange LH) in
  let CS := NewCategoryState H LH in
  filter isIncompatibleHint (ReportedBy H (LoopHint LH))
  = match EnableAttr CS, NumericAttr CS with
    | Some Enable, Some Numeric =>
        if Category_eqb C Unroll || (LoopHintAttr.getValue Enable =? 0)
        then [IncompatibleHint L Enable Numeric] else []
    | _, _ => []
    end.
Proof.
  intros C L CS. rewrite ReportedBy_LoopHint, filter_app. fold C L CS.
  destruct (PrevAttrOf H LH) as [P|]; cbn [filter app];
    destruct (EnableAttr CS) as [E|]; try reflexivity;
    destruct (NumericAttr CS) as [N|]; try reflexivity;
    destruct (Category_eqb C Unroll || (LoopHintAttr.getValue E =? 0));
    reflexivity.
Qed.

Lemma ReportedBy_duplicate (H : HintAttrsT) (LH : LoopHintAttr.t) :
  filter isDuplicateHint (ReportedBy H (LoopHint LH))
  = match PrevAttrOf H LH with
    | Some Prev =>
        [DuplicateHint (getBegin (LoopHintAttr.getRange LH)) Prev LH]
    | None => []
    end.
Proof.
  rewrite ReportedBy_LoopHint, filter_app.
  set (CS := NewCategoryState H LH).
  set (C := CategoryOf (LoopHintAttr.getOption LH)).
  destruct (PrevAttrOf H LH) as [P|]; cbn [filter app];
    destruct (EnableAttr CS) as [E|]; try reflexivity;
    destruct (NumericAttr CS) as [N|]; try reflexivity;
    destruct (Category_eqb C Unroll || (LoopHintAttr.getValue E =? 0));
    reflexivity.
Qed.

(** *** Counting the messages of a category *)

Lemma filter_andb {A} (f g : A -> bool) (l : list A) :
  filter (fun x => f x && g x) l = filter g (filter f l).
Proof.
  induction l as [|x l IH]; cbn; [reflexivity|].
  destruct (f x); cbn; [destruct (g x)|]; now rewrite IH.
Qed.

Lemma SlotsInCategory_init : SlotsInCategory HintAttrsInit.
Proof. intros C LH. destruct C; cbn; intros [E|E]; discriminate E. Qed.

Lemma PrevAttrOf_category (H : HintAttrsT) (LH Prev : LoopHintAttr.t) :
  SlotsInCategory H -> PrevAttrOf H LH = Some Prev ->
  CategoryOf (LoopHintAttr.getOption Prev)
  = CategoryOf (LoopHintAttr.getOption LH)
  /\ occupied H (CategoryOf (LoopHintAttr.getOption LH)) = true.
Proof.
  intros W. unfold PrevAttrOf, occupied.
  destruct (isEnableOption (LoopHintAttr.getOption LH)); intros E.
  - split; [apply W; now left|]. now rewrite E.
  - split; [apply W; now right|]. rewrite E. apply orb_true_r.
Qed.

Lemma NewCategoryState_category (H : HintAttrsT) (LH X : LoopHintAttr.t) :
  SlotsInCategory H ->
  EnableAttr (NewCategoryState H LH) = Some X
  \/ NumericAttr (NewCategoryState H LH) = Some X ->
  CategoryOf (LoopHintAttr.getOption X)
  = CategoryOf (LoopHintAttr.getOption LH).
Proof.
  intros W. unfold NewCategoryState.
  destruct (isEnableOption (LoopHintAttr.getOption LH)); cbn;
    intros [E|E]; try (injection E as <-; reflexivity);
    apply W; auto.
Qed.

Lemma NewCategoryState_both (H : HintAttrsT) (LH E N : LoopHintAttr.t) :
  EnableAttr (NewCategoryState H LH) = Some E ->
  NumericAttr (NewCategoryState H LH) = Some N ->
  occupied H (CategoryOf (LoopHintAttr.getOption LH)) = true.
Proof.
  unfold NewCategoryState, occupied.
  destruct (isEnableOption (LoopHintAttr.getOption LH)); cbn; intros HE HN.
  - rewrite HN. apply orb_true_r.
  - now rewrite HE.
Qed.

Lemma SlotsInCategory_step (H : HintAttrsT) (I : Attr) :
  SlotsInCategory H -> SlotsInCategory (StateAfter H I).
Proof.
  intros W. destruct I as [R n|LH]; [exact W|].
  rewrite StateAfter_LoopHint. intros C X HX.
  destruct (Category_eqb (CategoryOf (LoopHintAttr.getOption LH)) C) eqn:E.
  - apply Category_eqb_eq in E. subst C.
    rewrite HintAttrs_get_set_same in HX.
    now apply (NewCategoryState_category H LH X W).
  - assert (N : CategoryOf (LoopHintAttr.getOption LH) <> C).
    { intros EQ. subst C. now rewrite Category_eqb_refl in E. }
    rewrite (HintAttrs_get_set_other _ _ _ _ N) in HX. now apply W.
Qed.

Lemma occupied_step (H : HintAttrsT) (LH : LoopHintAttr.t) (C : Category) :
  occupied (StateAfter H (LoopHint LH)) C
  = if Category_eqb (CategoryOf (LoopHintAttr.getOption LH)) C then true
    else occupied H C.
Proof.
  rewrite StateAfter_LoopHint. unfold occupied.
  destruct (Category_eqb (CategoryOf (LoopHintAttr.getOption LH)) C) eqn:E.
  - apply Category_eqb_eq in E. subst C. rewrite HintAttrs_get_set_same.
    unfold NewCategoryState.
    destruct (isEnableOption (LoopHintAttr.getOption LH)); cbn;
      [reflexivity | apply orb_true_r].
  - assert (N : CategoryOf (LoopHintAttr.getOption LH) <> C).
    { intros EQ. subst C. now rewrite Category_eqb_refl in E. }
    now rewrite (HintAttrs_get_set_other _ _ _ _ N).
Qed.

(** For one hint the loop body reports at most one duplicate about a
    category and at most one incompatibility, and none about a category
    that is not the hint's or that had no hint before. *)
Lemma countDuplicate_step (H : HintAttrsT) (LH : LoopHintAttr.t)
    (C : Category) :
  SlotsInCategory H ->
  (countDuplicate C (ReportedBy H (LoopHint LH))
   <= if Category_eqb (CategoryOf (LoopHintAttr.getOption LH)) C
         && occupied H C then 1 else 0)%nat.
Proof.
  intros W. unfold countDuplicate.
  rewrite filter_andb, ReportedBy_duplicate.
  destruct (PrevAttrOf H LH) as [P|] eqn:HP; [|cbn; lia].
  destruct (PrevAttrOf_category H LH P W HP) as [HC HO].
  cbn. unfold aboutCategory, DiagCategory. cbn. rewrite HC.
  destruct (Category_eqb (CategoryOf (LoopHintAttr.getOption LH)) C) eqn:E;
    [|cbn; lia].
  apply Category_eqb_eq in E. subst C. rewrite HO. cbn. lia.
Qed.

Lemma countIncompatible_step (H : HintAttrsT) (LH : LoopHintAttr.t)
    (C : Category) :
  SlotsInCategory H ->
  (countIncompatible C (ReportedBy H (LoopHint LH))
   <= if Category_eqb (CategoryOf (LoopHintAttr.getOption LH)) C
         && occupied H C then 1 else 0)%nat.
Proof.
  intros W. unfold countIncompatible.
  rewrite filter_andb, ReportedBy_incompatible.
  destruct (EnableAttr (NewCategoryState H LH)) as [E|] eqn:HE; [|cbn; lia].
  destruct (NumericAttr (NewCategoryState H LH)) as [N|] eqn:HN; [|cbn; lia].
  pose proof (NewCategoryState_category H LH E W (or_introl HE)) as HC.
  pose proof (NewCategoryState_both H LH E N HE HN) as HO.
  destruct (Category_eqb (CategoryOf (LoopHintAttr.getOption LH)) Unroll
            || (LoopHintAttr.getValue E =? 0)); [|cbn; lia].
  cbn. unfold aboutCategory, DiagCategory. cbn. rewrite HC.
  destruct (Category_eqb (CategoryOf (LoopHintAttr.getOption LH)) C) eqn:EC;
    [|cbn; lia].
  apply Category_eqb_eq in EC. subst C. rewrite HO. cbn. lia.
Qed.

(** *** The messages of a whole sequence *)

Lemma LoopState_app (Attrs1 Attrs2 : list Attr) (H : HintAttrsT) :
  LoopState H (Attrs1 ++ Attrs2) = LoopState (LoopState H Attrs1) Attrs2.
Proof.
  revert H. induction Attrs1 as [|I Attrs1 IH]; intros H; cbn;
    [reflexivity | apply IH].
Qed.

Lemma SlotsInCategory_loop (Attrs : list Attr) (H : HintAttrsT) :
  SlotsInCategory H -> SlotsInCategory (LoopState H Attrs).
Proof.
  revert H. induction Attrs as [|I Attrs IH]; intros H W; cbn; [exact W|].
  apply IH. now apply SlotsInCategory_step.
Qed.

(** A message of the loop is the message of one of its rounds. *)
Lemma In_LoopReported (d : Diagnostic) (Attrs : list Attr) (H : HintAttrsT) :
  In d (LoopReported H Attrs)
  <-> exists pre I post,
        Attrs = (pre ++ I :: post)%list
        /\ In d (ReportedBy (LoopState H pre) I).
Proof.
  revert H. induction Attrs as [|I Attrs IH]; intros H; cbn.
  - split; [contradiction|]. intros [pre [I [post [E _]]]].
    now destruct pre.
  - rewrite in_app_iff, IH. split.
    + intros [Hd | [pre [J [post [E Hd]]]]].
      * now exists [], I, Attrs.
      * exists (I :: pre), J, post. split; [now rewrite E | exact Hd].
    + intros [pre [J [post [E Hd]]]]. destruct pre as [|I' pre].
      * injection E as <- <-. now left.
      * injection E as <- E. right. now exists pre, J, post.
Qed.

(** The round of a hint that leaves the slots of its category conflicting
    reports the incompatibility, about that category. *)
Lemma conflict_reported (H : HintAttrsT) (LH : LoopHintAttr.t) :
  SlotsInCategory H ->
  Conflicting (CategoryOf (LoopHintAttr.getOption LH))
              (NewCategoryState H LH) ->
  exists d, In d (ReportedBy H (LoopHint LH))
            /\ isIncompatibleHint d = true
            /\ aboutCategory (CategoryOf (LoopHintAttr.getOption LH)) d = true.
Proof.
  intros W [E [N [HE [HN HT]]]]. apply conflict_test in HT.
  pose proof (ReportedBy_incompatible H LH) as EF. cbv zeta in EF.
  rewrite HE, HN, HT in EF.
  exists (IncompatibleHint (getBegin (LoopHintAttr.getRange LH)) E N).
  split; [|split; [reflexivity|]].
  - apply (proj1 (filter_In isIncompatibleHint _ _)). rewrite EF. now left.
  - unfold aboutCategory, DiagCategory. cbn.
    rewrite (NewCategoryState_category H LH E W (or_introl HE)).
    apply Category_eqb_refl.
Qed.

(** An incompatibility reported in the round of a hint is about the hint's
    category, whose slots the round leaves conflicting. *)
Lemma reported_conflict (H : HintAttrsT) (LH : LoopHintAttr.t) (d : Diagnostic)
    (C : Category) :
  SlotsInCategory H ->
  In d (ReportedBy H (LoopHint LH)) -> isIncompatibleHint d = true ->
  aboutCategory C d = true ->
  CategoryOf (LoopHintAttr.getOption LH) = C
  /\ Conflicting C (NewCategoryState H LH).
Proof.
  intros W Hin Hd Ha.
  assert (Hf : In d (filter isIncompatibleHint (ReportedBy H (LoopHint LH))))
    by (apply filter_In; auto).
  rewrite ReportedBy_incompatible in Hf.
  destruct (EnableAttr (NewCategoryState H LH)) as [E|] eqn:HE;
    [|contradiction].
  destruct (NumericAttr (NewCategoryState H LH)) as [N|] eqn:HN;
    [|contradiction].
  destruct (Category_eqb (CategoryOf (LoopHintAttr.getOption LH)) Unroll
            || (LoopHintAttr.getValue E =? 0)) eqn:T; [|contradiction].
  destruct Hf as [<-|[]].
  unfold aboutCategory, DiagCategory in Ha. cbn in Ha.
  rewrite (NewCategoryState_category H LH E W (or_introl HE)) in Ha.
  apply Category_eqb_eq in Ha. subst C. split; [reflexivity|].
  exists E, N. repeat split; auto. now apply conflict_test.
Qed.

Lemma incompatible_reported_iff (Attrs : list Attr) (C : Category) :
  (exists d, In d (LoopReported HintAttrsInit Attrs)
             /\ isIncompatibleHint d = true /\ aboutCategory C d = true)
  <-> (exists pre post,
         Attrs = (pre ++ post)%list
         /\ Conflicting C (HintAttrs_get (LoopState HintAttrsInit pre) C)).
Proof.
  split.
  - intros [d [Hin [Hd Ha]]].
    apply In_LoopReported in Hin. destruct Hin as [pre [I [post [E Hin]]]].
    destruct I as [R n|LH]; [contradiction|].
    pose proof (SlotsInCategory_loop pre _ SlotsInCategory_init) as W.
    destruct (reported_conflict _ LH d C W Hin Hd Ha) as [EC HC].
    exists (pre ++ [LoopHint LH])%list, post. split.
    + now rewrite <- app_assoc.
    + rewrite LoopState_app. cbn [LoopState].
      rewrite StateAfter_LoopHint, EC, HintAttrs_get_set_same. exact HC.
  - intros [pre [post [E HC]]]. revert post E HC.
    induction pre as [|I pre IH] using rev_ind; intros post E HC.
    + destruct HC as [En [Nu [HE _]]]. destruct C; discriminate HE.
    + rewrite <- app_assoc in E. cbn [app] in E.
      rewrite LoopState_app in HC. cbn [LoopState] in HC.
      destruct I as [R n|LH]; [now apply (IH (FallThroughAttr R n :: post))|].
      pose proof (SlotsInCategory_loop pre _ SlotsInCategory_init) as W.
      rewrite StateAfter_LoopHint in HC.
      destruct (Category_eqb (CategoryOf (LoopHintAttr.getOption LH)) C) eqn:EC.
      * apply Category_eqb_eq in EC. subst C.
        rewrite HintAttrs_get_set_same in HC.
        destruct (conflict_reported _ LH W HC) as [d [Hin [Hd Ha]]].
        exists d. split; [|auto]. apply In_LoopReported.
        now exists pre, (LoopHint LH), post.
      * assert (N : CategoryOf (LoopHintAttr.getOption LH) <> C).
        { intros EQ. subst C. now rewrite Category_eqb_refl in EC. }
        rewrite (HintAttrs_get_set_other _ _ _ _ N) in HC.
        now apply (IH (LoopHint LH :: post)).
Qed.

(** C1. Take any sequence of attributes and any loop hint in it.  When
    the check comes to the hint it has stored what precedes; it stores the
    hint in its slot and then reports an incompatibility exactly when the
    two slots of the hint's category both hold a hint and either the
    category is unroll or the hint in the enable slot has the value 0; the
    message names these two hints.  Over a whole sequence, then, an
    incompatibility about a category is reported exactly when at some point
    of the loop the slots of the category are in that condition.  So
    [vectorize(enable)] followed by
    [vectorize_width(N)] is reported as nothing, while [vectorize(disable)]
    followed by [vectorize_width(N)], and [unroll(full)] followed by
    [unroll_count(N)], are each reported as one incompatibility. *)
Theorem incompatible_hint_exactly_when (pre post : list Attr)
    (LH : LoopHintAttr.t) (S : Sema) :
  let C := CategoryOf (LoopHintAttr.getOption LH) in
  let L := getBegin (LoopHintAttr.getRange LH) in
  let H := LoopState HintAttrsInit pre in
  let before := LoopReported HintAttrsInit pre in
  let ds := ReportedBy H (LoopHint LH) in
  let H' := StateAfter H (LoopHint LH) in
  let CS := HintAttrs_get H' C in
  CheckForIncompatibleAttributes (pre ++ LoopHint LH :: post) S
  = Some (tt, report S (before ++ ds ++ LoopReported H' post))
  /\ CheckLoop HintAttrsInit pre S = Some (H, report S before)
  /\ CheckAttr H (LoopHint LH) (report S before)
     = Some (H', report (report S before) ds)
  /\ ((exists d, In d ds /\ isIncompatibleHint d = true) <-> Conflicting C CS)
  /\ filter isIncompatibleHint ds
     = match EnableAttr CS, NumericAttr CS with
       | Some Enable, Some Numeric =>
           if Category_eqb C Unroll || (LoopHintAttr.getValue Enable =? 0)
           then [IncompatibleHint L Enable Numeric] else []
       | _, _ => []
       end
  /\ (forall Attrs C',
      (exists d, In d (LoopReported HintAttrsInit Attrs)
                 /\ isIncompatibleHint d = true /\ aboutCategory C' d = true)
      <-> (exists pre' post',
             Attrs = (pre' ++ post')%list
             /\ Conflicting C'
                  (HintAttrs_get (LoopState HintAttrsInit pre') C')))
  /\ (forall sp1 sp2 r1 r2 N S',
      CheckForIncompatibleAttributes
        [LoopHint (LoopHintAttr.CreateImplicit sp1 LoopHintAttr.Vectorize 1 r1);
         LoopHint (LoopHintAttr.CreateImplicit sp2 LoopHintAttr.VectorizeWidth
                                               N r2)] S'
      = Some (tt, S'))
  /\ (forall sp1 sp2 r1 r2 N S',
      CheckForIncompatibleAttributes
        [LoopHint (LoopHintAttr.CreateImplicit sp1 LoopHintAttr.Vectorize 0 r1);
         LoopHint (LoopHintAttr.CreateImplicit sp2 LoopHintAttr.VectorizeWidth
                                               N r2)] S'
      = Some (tt, report S'
           [IncompatibleHint (getBegin r2)
              (LoopHintAttr.CreateImplicit sp1 LoopHintAttr.Vectorize 0 r1)
              (LoopHintAttr.CreateImplicit sp2 LoopHintAttr.VectorizeWidth
                                           N r2)]))
  /\ (forall sp1 sp2 r1 r2 v N S',
      CheckForIncompatibleAttributes
        [LoopHint (LoopHintAttr.CreateImplicit sp1 LoopHintAttr.Unroll v r1);
         LoopHint (LoopHintAttr.CreateImplicit sp2 LoopHintAttr.UnrollCount
                                               N r2)] S'
      = Some (tt, report S'
           [IncompatibleHint (getBegin r2)
              (LoopHintAttr.CreateImplicit sp1 LoopHintAttr.Unroll v r1)
              (LoopHintAttr.CreateImplicit sp2 LoopHintAttr.UnrollCount
                                           N r2)])).
Proof.
  intros C L H before ds H' CS.
  assert (ECS : CS = NewCategoryState H LH).
  { subst CS H'. rewrite StateAfter_LoopHint. apply HintAttrs_get_set_same. }
  assert (EF : filter isIncompatibleHint ds
     = match EnableAttr CS, NumericAttr CS with
       | Some Enable, Some Numeric =>
           if Category_eqb C Unroll || (LoopHintAttr.getValue Enable =? 0)
           then [IncompatibleHint L Enable Numeric] else []
       | _, _ => []
       end).
  { rewrite ECS. apply ReportedBy_incompatible. }
  split; [|split; [|split; [|split; [|split; [exact EF|split]]]]].
  - rewrite CheckForIncompatibleAttributes_run, LoopReported_app. reflexivity.
  - apply CheckLoop_run.
  - apply CheckAttr_run.
  - split.
    + intros [d [Hin Hd]].
      assert (Hf : In d (filter isIncompatibleHint ds))
        by (apply filter_In; auto).
      rewrite EF in Hf. unfold Conflicting.
      destruct (EnableAttr CS) as [E|]; [|contradiction].
      destruct (NumericAttr CS) as [N|]; [|contradiction].
      destruct (Category_eqb C Unroll || (LoopHintAttr.getValue E =? 0)) eqn:T;
        [|contradiction].
      exists E, N. repeat split. now apply conflict_test.
    + intros [E [N [HE [HN HT]]]]. apply conflict_test in HT.
      rewrite HE, HN, HT in EF. exists (IncompatibleHint L E N).
      apply filter_In. rewrite EF. now left.
  - intros Attrs C'. apply incompatible_reported_iff.
  - repeat split; intros; rewrite CheckForIncompatibleAttributes_run;
      cbn; rewrite ?report_nil; reflexivity.
Qed.

Section CountingOverTheLoop.

(** A way to count messages about the category [C], of which the loop body
    reports at most one per hint of [C], and none before [C] has a hint. *)
Variable C : Category.
Variable count : list Diagnostic -> nat.
Hypothesis count_nil : count [] = 0%nat.
Hypothesis count_app :
  forall ds1 ds2, count (ds1 ++ ds2) = (count ds1 + count ds2)%nat.
Hypothesis count_step :
  forall H LH, SlotsInCategory H ->
    (count (ReportedBy H (LoopHint LH))
     <= if Category_eqb (CategoryOf (LoopHintAttr.getOption LH)) C
           && occupied H C then 1 else 0)%nat.

Lemma count_loop (Attrs : list Attr) :
  forall H, SlotsInCategory H ->
    (count (LoopReported H Attrs)
     <= if occupied H C then countHints C Attrs
        else Nat.pred (countHints C Attrs))%nat.
Proof.
  induction Attrs as [|I Attrs IH]; intros H W.
  - cbn. rewrite count_nil. destruct (occupied H C); cbn; lia.
  - cbn [LoopReported]. rewrite count_app.
    pose proof (IH _ (SlotsInCategory_step H I W)) as Hrest.
    destruct I as [R n|LH].
    + change (StateAfter H (FallThroughAttr R n)) with H in Hrest.
      change (ReportedBy H (FallThroughAttr R n)) with (@nil Diagnostic).
      rewrite count_nil. exact Hrest.
    + pose proof (count_step H LH W) as Hstep.
      rewrite occupied_step in Hrest.
      unfold countHints in *. cbn [filter inCategory dyn_cast_LoopHintAttr].
      destruct (Category_eqb (CategoryOf (LoopHintAttr.getOption LH)) C);
        cbn [andb List.length] in *.
      * destruct (occupied H C); cbn [Nat.pred]; lia.
      * destruct (occupied H C); lia.
Qed.

End CountingOverTheLoop.

(** C2, as amended.  The check never fails.  For each hint it comes to it
    reports at most one duplicate and at most one incompatibility, and none
    of either for the first hint of a category; so for a category with k
    hints among the attributes it reports at most k - 1 duplicates and at
    most k - 1 incompatibilities, hence at most one of each when the
    category has no more than two hints. *)
Theorem compatibility_diagnostics_bound (Attrs : list Attr) (C : Category)
    (S : Sema) :
  let ds := LoopReported HintAttrsInit Attrs in
  CheckForIncompatibleAttributes Attrs S = Some (tt, report S ds)
  /\ (countDuplicate C ds <= Nat.pred (countHints C Attrs))%nat
  /\ (countIncompatible C ds <= Nat.pred (countHints C Attrs))%nat
  /\ (forall H I,
        (List.length (filter isDuplicateHint (ReportedBy H I)) <= 1)%nat
        /\ (List.length (filter isIncompatibleHint (ReportedBy H I)) <= 1)%nat).
Proof.
  intros ds. split; [apply CheckForIncompatibleAttributes_run|].
  assert (Happ : forall f (ds1 ds2 : list Diagnostic),
             List.length (filter f (ds1 ++ ds2))
             = (List.length (filter f ds1) + List.length (filter f ds2))%nat).
  { intros f ds1 ds2. now rewrite filter_app, length_app. }
  split; [|split].
  - generalize (count_loop C (countDuplicate C) eq_refl (Happ _)
                  (fun H LH => countDuplicate_step H LH C)
                  Attrs HintAttrsInit SlotsInCategory_init).
    subst ds. destruct C; intros B; exact B.
  - generalize (count_loop C (countIncompatible C) eq_refl (Happ _)
                  (fun H LH => countIncompatible_step H LH C)
                  Attrs HintAttrsInit SlotsInCategory_init).
    subst ds. destruct C; intros B; exact B.
  - intros H [R n|LH]; [cbn; lia|].
    rewrite ReportedBy_duplicate, ReportedBy_incompatible.
    destruct (PrevAttrOf H LH);
      destruct (EnableAttr (NewCategoryState H LH)) as [E|];
      destruct (NumericAttr (NewCategoryState H LH));
      try destruct (Category_eqb (CategoryOf (LoopHintAttr.getOption LH)) Unroll
                    || (LoopHintAttr.getValue E =? 0));
      cbn; lia.
Qed.

(** What the check reports for [vectorize(disable)], [vectorize_width(2)],
    [vectorize_width(4)], [vectorize_width(8)] on one loop. *)
Example four_vectorize_hints_reported :
  let disable := ClangLoopHint LoopHintAttr.Vectorize 0 in
  let width := ClangLoopHint LoopHintAttr.VectorizeWidth in
  LoopReported HintAttrsInit
    [LoopHint disable; LoopHint (width 2); LoopHint (width 4);
     LoopHint (width 8)]
  = [IncompatibleHint 1%nat disable (width 2);
     DuplicateHint 1%nat (width 2) (width 4);
     IncompatibleHint 1%nat disable (width 4);
     DuplicateHint 1%nat (width 4) (width 8);
     IncompatibleHint 1%nat disable (width 8)].
Proof. reflexivity. Qed.

(** C2, as stated, fails: for [vectorize(disable)], [vectorize_width(2)],
    [vectorize_width(4)], [vectorize_width(8)] on one loop the check reports
    two duplicates and three incompatibilities about the vectorize
    category. *)
Lemma four_vectorize_hints_reported_twice :
  ~ AtMostOnePerCategory
      [LoopHint (ClangLoopHint LoopHintAttr.Vectorize 0);
       LoopHint (ClangLoopHint LoopHintAttr.VectorizeWidth 2);
       LoopHint (ClangLoopHint LoopHintAttr.VectorizeWidth 4);
       LoopHint (ClangLoopHint LoopHintAttr.VectorizeWidth 8)]
      Sema0.
Proof.
  intros Hc.
  destruct (Hc Vectorize _ (CheckForIncompatibleAttributes_run _ Sema0))
    as [H1 _].
  vm_compute in H1. lia.
Qed.

(** ** The theorems at sample inputs *)

(** [[clang::fallthrough]] before a case label. *)
Lemma fallthrough_wrong_target_witness :
  getStmtClass CaseLabel <> NullStmtClass
  /\ handleFallThroughAttr CaseLabel FallThroughAttribute Range0 Sema0
     = Some (None, report Sema0 [WrongTarget CaseLabel FallThroughAttribute;
                                 InsertSemiNote 6%nat]).
Proof.
  assert (H : getStmtClass CaseLabel <> NullStmtClass)
    by (intro; discriminate).
  split; [exact H|].
  destruct (fallthrough_wrong_target CaseLabel FallThroughAttribute Range0
                                     Sema0 H) as (_ & G & _).
  apply G. left. reflexivity.
Defined.

(** [#pragma clang loop vectorize(enable)] before an if statement. *)
Lemma loop_hint_precedes_nonloop_witness :
  (getStmtClass IfStatement <> DoStmtClass
   /\ getStmtClass IfStatement <> ForStmtClass
   /\ getStmtClass IfStatement <> CXXForRangeStmtClass
   /\ getStmtClass IfStatement <> WhileStmtClass)
  /\ HasLoopHintArgs ClangLoopVectorizeEnable "loop" "vectorize"
                     (Some (KeywordAt3 "enable")) None
  /\ handleLoopHintAttr IfStatement ClangLoopVectorizeEnable Range0 Sema0
     = Some (None, report Sema0
                     [PrecedesNonLoop IfStatement "#pragma clang loop"]).
Proof.
  assert (H1 : getStmtClass IfStatement <> DoStmtClass)
    by (intro; discriminate).
  assert (H2 : getStmtClass IfStatement <> ForStmtClass)
    by (intro; discriminate).
  assert (H3 : getStmtClass IfStatement <> CXXForRangeStmtClass)
    by (intro; discriminate).
  assert (H4 : getStmtClass IfStatement <> WhileStmtClass)
    by (intro; discriminate).
  assert (HA : HasLoopHintArgs ClangLoopVectorizeEnable "loop" "vectorize"
                               (Some (KeywordAt3 "enable")) None)
    by loop_hint_args.
  split; [auto|]. split; [exact HA|].
  destruct (loop_hint_precedes_nonloop
              IfStatement ClangLoopVectorizeEnable Range0 "loop" "vectorize"
              _ _ Sema0 H1 H2 H3 H4 HA) as [Pragma (E & _ & _ & G & _)].
  rewrite E, G; [reflexivity | intro; discriminate | intro; discriminate].
Defined.

(** [#pragma unroll] before a while loop. *)
Lemma pragma_unroll_plain_witness :
  notLoop WhileLoop = false
  /\ HasLoopHintArgs PragmaUnroll "unroll" "unroll" None None
  /\ handleLoopHintAttr WhileLoop PragmaUnroll Range0 Sema0
     = Some (Some (LoopHint (LoopHintAttr.CreateImplicit
                               LoopHintAttr.Pragma_unroll LoopHintAttr.Unroll 1
                               (mkSourceRange 1%nat 4%nat))), Sema0).
Proof.
  assert (HA : HasLoopHintArgs PragmaUnroll "unroll" "unroll" None None)
    by loop_hint_args.
  split; [reflexivity|]. split; [exact HA|].
  apply (pragma_unroll_plain WhileLoop PragmaUnroll Range0 "unroll" None
                             Sema0 eq_refl HA).
Defined.

(** [#pragma nounroll] before a while loop, with arguments it ignores. *)
Lemma pragma_nounroll_witness :
  notLoop WhileLoop = false
  /\ HasLoopHintArgs PragmaNoUnroll "nounroll" "nounroll"
                     (Some (KeywordAt3 "full")) (Some (Constant 4))
  /\ handleLoopHintAttr WhileLoop PragmaNoUnroll Range0 Sema0
     = Some (Some (LoopHint (LoopHintAttr.CreateImplicit
                               LoopHintAttr.Pragma_nounroll
                               LoopHintAttr.Unroll 0
                               (mkSourceRange 1%nat 4%nat))), Sema0).
Proof.
  assert (HA : HasLoopHintArgs PragmaNoUnroll "nounroll" "nounroll"
                 (Some (KeywordAt3 "full")) (Some (Constant 4)))
    by loop_hint_args.
  split; [reflexivity|]. split; [exact HA|].
  apply (pragma_nounroll WhileLoop PragmaNoUnroll Range0 "nounroll" _ _
                         Sema0 eq_refl HA).
Defined.

(** [#pragma clang loop distribute(enable)], an option name the switch does
    not know, before a while loop. *)
Lemma option_name_lookup_witness :
  HasLoopHintArgs ClangLoopDistributeEnable "loop" "distribute"
                  (Some (KeywordAt3 "enable")) None
  /\ GenericPragma "loop"
  /\ notLoop WhileLoop = false
  /\ OptionSwitch "distribute" = LoopHintAttr.Vectorize
  /\ handleLoopHintAttr WhileLoop ClangLoopDistributeEnable Range0 Sema0
     = Some (Some (LoopHint (LoopHintAttr.CreateImplicit
                               LoopHintAttr.Pragma_clang_loop
                               LoopHintAttr.Vectorize 1
                               (mkSourceRange 1%nat 4%nat))), Sema0).
Proof.
  assert (HA : HasLoopHintArgs ClangLoopDistributeEnable "loop" "distribute"
                 (Some (KeywordAt3 "enable")) None) by loop_hint_args.
  assert (HG : GenericPragma "loop") by generic_pragma.
  split; [exact HA|]. split; [exact HG|]. split; [reflexivity|].
  destruct (option_name_lookup
              WhileLoop ClangLoopDistributeEnable Range0 "loop" "distribute"
              _ _ Sema0 HA HG eq_refl)
    as (_ & _ & _ & _ & _ & _ & U & _ & _ & G).
  split.
  - apply U; intro; discriminate.
  - apply (G eq_refl (KeywordAt3 "enable")); reflexivity.
Defined.

(** [#pragma clang loop unroll(enable)] before a while loop: the keyword
    that unroll takes for true is [full]. *)
Lemma enable_form_keyword_witness :
  HasLoopHintArgs ClangLoopUnrollEnable "loop" "unroll"
                  (Some (KeywordAt3 "enable")) None
  /\ GenericPragma "loop"
  /\ notLoop WhileLoop = false
  /\ isEnableOption (OptionSwitch "unroll") = true
  /\ handleLoopHintAttr WhileLoop ClangLoopUnrollEnable Range0 Sema0
     = Some (None, report Sema0 [InvalidKeyword (KeywordAt3 "enable") "full"]).
Proof.
  assert (HA : HasLoopHintArgs ClangLoopUnrollEnable "loop" "unroll"
                 (Some (KeywordAt3 "enable")) None) by loop_hint_args.
  assert (HG : GenericPragma "loop") by generic_pragma.
  split; [exact HA|]. split; [exact HG|]. split; [reflexivity|].
  split; [reflexivity|].
  destruct (enable_form_keyword
              WhileLoop ClangLoopUnrollEnable Range0 "loop" "unroll"
              (KeywordAt3 "enable") None Sema0 HA HG eq_refl eq_refl)
    as (_ & _ & _ & _ & G).
  apply G. right. exists "enable".
  split; [reflexivity|]. split; intro; discriminate.
Defined.

(** [#pragma clang loop vectorize_width(8)] before a while loop. *)
Lemma numeric_form_in_int_range_witness :
  HasLoopHintArgs (ClangLoopVectorizeWidth 8) "loop" "vectorize_width"
                  (Some NumberAt3) (Some (Constant 8))
  /\ GenericPragma "loop"
  /\ notLoop WhileLoop = false
  /\ isNumericOption (OptionSwitch "vectorize_width") = true
  /\ (forall E V, Some (Constant 8) = Some E ->
                  isIntegerConstantExpr E = Some V ->
                  - 2 ^ 31 <= getSExtValue V < 2 ^ 31)
  /\ Decodes WhileLoop (ClangLoopVectorizeWidth 8) Range0 Sema0
  /\ handleLoopHintAttr WhileLoop (ClangLoopVectorizeWidth 8) Range0 Sema0
     = Some (Some (LoopHint (LoopHintAttr.CreateImplicit
                               LoopHintAttr.Pragma_clang_loop
                               LoopHintAttr.VectorizeWidth 8
                               (mkSourceRange 1%nat 4%nat))), Sema0).
Proof.
  assert (HA : HasLoopHintArgs (ClangLoopVectorizeWidth 8) "loop"
                 "vectorize_width" (Some NumberAt3) (Some (Constant 8)))
    by loop_hint_args.
  assert (HG : GenericPragma "loop") by generic_pragma.
  assert (HR : forall E V, Some (Constant 8) = Some E ->
                 isIntegerConstantExpr E = Some V ->
                 - 2 ^ 31 <= getSExtValue V < 2 ^ 31).
  { intros E V HE HV. injection HE as <-. injection HV as <-. cbn. lia. }
  split; [exact HA|]. split; [exact HG|]. split; [reflexivity|].
  split; [reflexivity|]. split; [exact HR|].
  destruct (numeric_form_in_int_range
              WhileLoop (ClangLoopVectorizeWidth 8) Range0 "loop"
              "vectorize_width" NumberAt3 _ Sema0 HA HG eq_refl eq_refl HR)
    as (G & K & _).
  split.
  - apply G. exists (Constant 8), (mkAPSInt 8).
    split; [reflexivity|]. split; [reflexivity|]. cbn. lia.
  - apply (K (Constant 8) (mkAPSInt 8) eq_refl eq_refl). cbn. lia.
Defined.

(** [#pragma clang loop vectorize_width(4294967297)] before a while loop:
    the hint holds 1. *)
Lemma numeric_value_is_truncated_witness :
  HasLoopHintArgs (ClangLoopVectorizeWidth 4294967297) "loop"
                  "vectorize_width" (Some NumberAt3)
                  (Some (Constant 4294967297))
  /\ GenericPragma "loop"
  /\ notLoop WhileLoop = false
  /\ isNumericOption (OptionSwitch "vectorize_width") = true
  /\ isIntegerConstantExpr (Constant 4294967297) = Some (mkAPSInt 4294967297)
  /\ handleLoopHintAttr WhileLoop (ClangLoopVectorizeWidth 4294967297)
                        Range0 Sema0
     = Some (Some (LoopHint (LoopHintAttr.CreateImplicit
                               LoopHintAttr.Pragma_clang_loop
                               LoopHintAttr.VectorizeWidth 1
                               (mkSourceRange 1%nat 4%nat))), Sema0).
Proof.
  assert (HA : HasLoopHintArgs (ClangLoopVectorizeWidth 4294967297) "loop"
                 "vectorize_width" (Some NumberAt3)
                 (Some (Constant 4294967297))) by loop_hint_args.
  assert (HG : GenericPragma "loop") by generic_pragma.
  split; [exact HA|]. split; [exact HG|]. split; [reflexivity|].
  split; [reflexivity|]. split; [reflexivity|].
  destruct (numeric_value_is_truncated
              WhileLoop (ClangLoopVectorizeWidth 4294967297) Range0 "loop"
              "vectorize_width" NumberAt3 (Constant 4294967297)
              (mkAPSInt 4294967297) Sema0 HA HG eq_refl eq_refl eq_refl)
    as (_ & _ & _ & _ & G).
  apply G. reflexivity.
Defined.

(** * Further properties *)

(** ** The fallthrough handler, accepted and outside a switch *)

(** The fallthrough handler never fails; this is all it does. *)
Lemma handleFallThroughAttr_cases (St : Stmt) (A : AttributeListT)
    (Range : SourceRange) (S : Sema) :
  handleFallThroughAttr St A Range S
  = if negb (isa_NullStmt St) then
      Some (None, report S (WrongTarget St A ::
              if isa_SwitchCase St
              then [InsertSemiNote (getLocForEndOfToken S (getEnd Range))]
              else []))
    else match SwitchStack (getCurFunction S) with
         | [] => Some (None, report S [OutsideSwitch A])
         | _ :: _ =>
             Some (Some (FallThroughAttr (getRange A)
                           (getAttributeSpellingListIndex A)), S)
         end.
Proof.
  unfold handleFallThroughAttr. destruct (negb (isa_NullStmt St)).
  - unfold bind, Diag. cbn.
    destruct (isa_SwitchCase St); cbn; now rewrite ?report_app.
  - unfold bind, getSema.
    destruct (SwitchStack (getCurFunction S)); reflexivity.
Qed.

(** X1. The fallthrough handler returns an attribute exactly when the
    statement is a null statement and the function being analysed has a
    switch open; the attribute then carries the range and the spelling index
    of the parsed attribute, and nothing is reported. *)
Theorem fallthrough_accepted_iff (St : Stmt) (A : AttributeListT)
    (Range : SourceRange) (S : Sema) :
  ((exists At S', handleFallThroughAttr St A Range S = Some (Some At, S'))
   <-> getStmtClass St = NullStmtClass
       /\ SwitchStack (getCurFunction S) <> [])
  /\ (forall At S',
        handleFallThroughAttr St A Range S = Some (Some At, S') ->
        At = FallThroughAttr (getRange A) (getAttributeSpellingListIndex A)
        /\ S' = S).
Proof.
  rewrite handleFallThroughAttr_cases. unfold isa_NullStmt.
  destruct (StmtClass_eqb (getStmtClass St) NullStmtClass) eqn:E; cbn [negb].
  - apply StmtClass_eqb_eq in E.
    destruct (SwitchStack (getCurFunction S)) as [|Sw Stack]; split.
    + split; [intros [At [S' D]]; discriminate D | intros [_ N]; now elim N].
    + intros At S' D. discriminate D.
    + split; [intros _; split; [exact E | discriminate] | intros _].
      now do 2 eexists.
    + intros At S' D. injection D as <- <-. auto.
  - apply StmtClass_eqb_neq in E. split.
    + split; [intros [At [S' D]]; discriminate D | intros [N _]; now elim E].
    + intros At S' D. discriminate D.
Qed.

(** X2. A fallthrough attribute on a null statement, while no switch is
    open, is dropped with the outside-switch error at the beginning of the
    attribute, and with nothing else. *)
Theorem fallthrough_outside_switch (St : Stmt) (A : AttributeListT)
    (Range : SourceRange) (S : Sema) :
  getStmtClass St = NullStmtClass ->
  SwitchStack (getCurFunction S) = [] ->
  handleFallThroughAttr St A Range S = Some (None, report S [OutsideSwitch A])
  /\ (getKind A = AttributeList.AT_FallThrough ->
      forall next Attrs,
        ProcessLoop St (A :: next) Range Attrs S
        = ProcessLoop St next Range Attrs (report S [OutsideSwitch A])).
Proof.
  intros HN HS.
  assert (E : handleFallThroughAttr St A Range S
              = Some (None, report S [OutsideSwitch A])).
  { rewrite handleFallThroughAttr_cases. unfold isa_NullStmt.
    rewrite HN, HS. reflexivity. }
  split; [exact E|]. intros HK next Attrs. apply ProcessLoop_dropped.
  unfold ProcessStmtAttribute. now rewrite HK.
Qed.

(** ** Attributes that are no statement attributes *)

(** X3. An attribute that is neither a fallthrough attribute nor a loop
    hint is never attached, whatever the statement: an unknown attribute is
    reported with a warning at its location (the one for Microsoft
    attributes when it is a declspec attribute), a known one with the error
    that it is invalid on a statement; both name the attribute, and the
    driver goes on with the next attribute, its vector unchanged. *)
Theorem foreign_attribute_dropped (St : Stmt) (A : AttributeListT)
    (Range : SourceRange) (S : Sema) :
  getKind A <> AttributeList.AT_FallThrough ->
  getKind A <> AttributeList.AT_LoopHint ->
  let d := match getKind A with
           | AttributeList.UnknownAttribute => UnknownAttributeIgnored A
           | _ => InvalidOnStmt St A
           end in
  ProcessStmtAttribute St A Range S = Some (None, report S [d])
  /\ (forall next Attrs,
        ProcessLoop St (A :: next) Range Attrs S
        = ProcessLoop St next Range Attrs (report S [d]))
  /\ (getID d = warn_unknown_attribute_ignored
      \/ getID d = warn_unhandled_ms_attribute_ignored
      <-> getKind A = AttributeList.UnknownAttribute)
  /\ In (ArgIdentifier (getName A)) (DiagArgs d).
Proof.
  intros H1 H2 d.
  assert (E : ProcessStmtAttribute St A Range S = Some (None, report S [d])).
  { subst d. unfold ProcessStmtAttribute.
    destruct (getKind A); try reflexivity; contradiction. }
  split; [exact E|]. split; [|split].
  - intros next Attrs. now apply ProcessLoop_dropped.
  - subst d. destruct (getKind A); try contradiction; cbn.
    + destruct (isDeclspecAttribute A); cbn; split; auto.
    + split; [intros [D|D]; discriminate D | intros D; discriminate D].
  - subst d. destruct (getKind A); try contradiction; cbn; auto.
Qed.

(** ** What the loop hint handler returns *)

(** When the handler returns at all, it has found the pragma name and the
    option with their identifiers. *)
Lemma handleLoopHintAttr_defined (St : Stmt) (A : AttributeListT)
    (R : SourceRange) (S : Sema) (r : option Attr) (S' : Sema) :
  handleLoopHintAttr St A R S = Some (r, S') ->
  exists P O,
    HasLoopHintArgs A P O (getArgAsIdent A 2%nat) (getArgAsExpr A 3%nat).
Proof.
  unfold handleLoopHintAttr, bind, HasLoopHintArgs.
  destruct (getArgAsIdent A 1%nat) as [OL|]; cbn; [|discriminate].
  destruct (Ident OL) as [O|] eqn:HO; cbn; [|discriminate].
  destruct (getArgAsIdent A 0%nat) as [PL|]; cbn;
    [|destruct (notLoop St); discriminate].
  destruct (Ident PL) as [P|] eqn:HP; cbn;
    [|destruct (notLoop St); discriminate].
  intros _. exists P, O. repeat split; eauto.
Qed.

(** What [selectValue] gives for the options and spellings that
    [selectOption] can give: a value that makes a valid hint, with nothing
    reported, or one diagnostic and no value. *)
Lemma selectValue_result (Option : LoopHintAttr.OptionType)
    (Spelling : LoopHintAttr.Spelling) (VL : option IdentifierLoc)
    (VE : option Expr) (R : SourceRange) (S S' : Sema) (r : option Z) :
  (Spelling = LoopHintAttr.Pragma_clang_loop
   \/ (Spelling = LoopHintAttr.Pragma_nounroll /\ Option = LoopHintAttr.Unroll)
   \/ (Spelling = LoopHintAttr.Pragma_unroll
       /\ (Option = LoopHintAttr.Unroll
           \/ Option = LoopHintAttr.UnrollCount))) ->
  selectValue Option Spelling VL
              match VL with Some V => Ident V | None => None end VE S
  = Some (r, S') ->
  match r with
  | Some v =>
      ValidHint (LoopHintAttr.CreateImplicit Spelling Option v R) = true
      /\ S' = S
  | None => exists d, S' = report S [d]
  end.
Proof.
  intros HSp.
  assert (Hnum : forall (m : M (option Z)) v,
             (if toInt v <? 1 then m else ret (Some (toInt v))) S
             = Some (r, S') ->
             (m S = Some (r, S') /\ toInt v < 1)
             \/ (r = Some (toInt v) /\ S' = S /\ 1 <= toInt v < 2 ^ 31)).
  { intros m v. pose proof (toInt_range v).
    destruct (Z.ltb_spec (toInt v) 1); intros D; [left; split; auto; lia|].
    right. injection D as <- <-. repeat split; lia. }
  assert (Hinv : forall id args,
             (VL0 <- deref VL ;; Diag (Loc VL0) id args ;; ret None) S
             = Some (r, S') ->
             r = None /\ exists d, S' = report S [d]).
  { intros id args. unfold bind, deref, Diag, ret, undefined.
    destruct VL; intros D; [|discriminate D].
    injection D as <- <-. split; eauto. }
  unfold selectValue.
  destruct HSp as [-> | [[-> ->] | [-> [-> | ->]]]]; cbn;
    try (intros D; injection D as <- <-; split; reflexivity).
  - destruct Option; cbn;
      try (destruct (match VL with Some V => Ident V | None => None end)
             as [VI|];
           [destruct (String.eqb VI "disable");
            [intros D; injection D as <- <-; split; reflexivity|];
            match goal with |- context [String.eqb VI ?k] =>
              destruct (String.eqb VI k) end;
            [intros D; injection D as <- <-; split; reflexivity|]|];
           intros D; apply Hinv in D; destruct D as [-> D]; exact D);
      (destruct VE as [E|];
       [destruct (isIntegerConstantExpr E) as [V|];
        [intros D; apply Hnum in D;
         destruct D as [[D _] | [-> [-> Hv]]];
         [apply Hinv in D; destruct D as [-> D]; exact D
         | split; [|reflexivity]; cbn;
           apply andb_true_iff; split;
           [apply Z.leb_le | apply Z.ltb_lt]; lia]
        | intros D; apply Hinv in D; destruct D as [-> D]; exact D]
       | intros D; apply Hinv in D; destruct D as [-> D]; exact D]).
  - destruct VE as [E|];
      [destruct (isIntegerConstantExpr E) as [V|];
       [intros D; apply Hnum in D;
        destruct D as [[D _] | [-> [-> Hv]]];
        [apply Hinv in D; destruct D as [-> D]; exact D
        | split; [|reflexivity]; cbn;
          apply andb_true_iff; split;
          [apply Z.leb_le | apply Z.ltb_lt]; lia]
       | intros D; apply Hinv in D; destruct D as [-> D]; exact D]
      | intros D; apply Hinv in D; destruct D as [-> D]; exact D].
Qed.

(** The loop hint handler returns a valid hint for a loop and reports
    nothing, or returns nothing and reports one diagnostic. *)
Lemma handleLoopHintAttr_result (St : Stmt) (A : AttributeListT)
    (R : SourceRange) (S : Sema) (r : option Attr) (S' : Sema) :
  handleLoopHintAttr St A R S = Some (r, S') ->
  match r with
  | Some At =>
      exists LH, At = LoopHint LH /\ ValidHint LH = true
                 /\ LoopHintAttr.getRange LH = getRange A
                 /\ notLoop St = false /\ S' = S
  | None => exists d, S' = report S [d]
  end.
Proof.
  intros D. destruct (handleLoopHintAttr_defined _ _ _ _ _ _ D) as [P [O HA]].
  rewrite (handleLoopHintAttr_args _ _ _ _ _ _ _ _ HA) in D.
  destruct (notLoop St) eqn:HL.
  { injection D as <- <-. eauto. }
  unfold bind in D.
  destruct (selectOption P (Some O) (getArgAsIdent A 2%nat) S)
    as [[[Op Sp] S1]|] eqn:HO; [|discriminate D].
  assert (HS : S1 = S
               /\ (Sp = LoopHintAttr.Pragma_clang_loop
                   \/ (Sp = LoopHintAttr.Pragma_nounroll
                       /\ Op = LoopHintAttr.Unroll)
                   \/ (Sp = LoopHintAttr.Pragma_unroll
                       /\ (Op = LoopHintAttr.Unroll
                           \/ Op = LoopHintAttr.UnrollCount)))).
  { unfold selectOption in HO. destruct (String.eqb P "unroll").
    - injection HO as <- <- <-. split; [reflexivity|]. right. right.
      split; [reflexivity|]. destruct (isSome (getArgAsIdent A 2%nat)); auto.
    - destruct (String.eqb P "nounroll"); injection HO as <- <- <-; auto. }
  destruct HS as [-> HSp]. cbn [fst snd] in D.
  destruct (selectValue Op Sp (getArgAsIdent A 2%nat) _
                        (getArgAsExpr A 3%nat) S)
    as [[[v|] S2]|] eqn:HV; [| |discriminate D].
  - injection D as <- <-.
    destruct (selectValue_result _ _ _ _ (getRange A) _ _ _ HSp HV) as [V ->].
    eexists. repeat split. exact V.
  - injection D as <- <-.
    exact (selectValue_result _ _ _ _ (getRange A) _ _ _ HSp HV).
Qed.

(** X4. Whenever the loop hint handler returns an attribute, the
    statement is a loop, nothing has been reported, and the attribute is a
    loop hint with the range of the parsed attribute whose parts agree:
    with the spelling of [#pragma nounroll] it is [Unroll] with value 0, with
    that of [#pragma unroll] it is [Unroll] with value 1 or [UnrollCount],
    an enable-form option has the value 0 or 1, and a numeric-form option a
    value from 1 to 2^31 - 1. *)
Theorem handler_builds_valid_hint (St : Stmt) (A : AttributeListT)
    (R : SourceRange) (S S' : Sema) (At : Attr) :
  handleLoopHintAttr St A R S = Some (Some At, S') ->
  exists LH,
    At = LoopHint LH
    /\ ValidHint LH = true
    /\ LoopHintAttr.getRange LH = getRange A
    /\ notLoop St = false
    /\ S' = S
    /\ (isEnableOption (LoopHintAttr.getOption LH) = true ->
        LoopHintAttr.getValue LH = 0 \/ LoopHintAttr.getValue LH = 1)
    /\ (isNumericOption (LoopHintAttr.getOption LH) = true ->
        1 <= LoopHintAttr.getValue LH < 2 ^ 31).
Proof.
  intros D. destruct (handleLoopHintAttr_result _ _ _ _ _ _ D)
    as [LH [-> [V [HR [HL ->]]]]].
  exists LH. repeat split; auto.
  - intros HE. unfold ValidHint in V. destruct LH as [sp op v r]. cbn in *.
    destruct sp, op; try discriminate; cbn in V;
      try (apply orb_true_iff in V; destruct V as [V|V]);
      apply Z.eqb_eq in V; auto.
  - unfold ValidHint in V. destruct LH as [sp op v r]. cbn in *.
    destruct sp, op; try discriminate; cbn in V;
      apply andb_true_iff in V; destruct V as [V _]; apply Z.leb_le in V;
      exact V.
  - unfold ValidHint in V. destruct LH as [sp op v r]. cbn in *.
    destruct sp, op; try discriminate; cbn in V;
      apply andb_true_iff in V; destruct V as [_ V]; apply Z.ltb_lt in V;
      exact V.
Qed.

(** The loop hint handler on [#pragma unroll] with a value argument. *)
Lemma pragma_unroll_count_aux (St : Stmt) (A : AttributeListT)
    (R : SourceRange) (O : string) (VL : IdentifierLoc) (VE : option Expr)
    (S : Sema) :
  notLoop St = false ->
  HasLoopHintArgs A "unroll" O (Some VL) VE ->
  handleLoopHintAttr St A R S
  = match VE with
    | None => Some (None, report S [InvalidValue VL])
    | Some E =>
        match isIntegerConstantExpr E with
        | None => Some (None, report S [InvalidValue VL])
        | Some ValueAPS =>
            if toInt (getSExtValue ValueAPS) <? 1
            then Some (None, report S [InvalidValue VL])
            else Some (Some (LoopHint (LoopHintAttr.CreateImplicit
                               LoopHintAttr.Pragma_unroll
                               LoopHintAttr.UnrollCount
                               (toInt (getSExtValue ValueAPS)) (getRange A))),
                       S)
        end
    end.
Proof.
  intros HL HA. rewrite (handleLoopHintAttr_args _ _ _ _ _ _ _ _ HA), HL.
  unfold bind. cbn [selectOption String.eqb Ascii.eqb Bool.eqb isSome ret
                    fst snd].
  cbv beta iota.
  rewrite (selectValue_numeric LoopHintAttr.UnrollCount
             LoopHintAttr.Pragma_unroll VL VE S eq_refl).
  destruct VE as [E|]; [|reflexivity].
  destruct (isIntegerConstantExpr E) as [V|]; [|reflexivity].
  destruct (toInt (getSExtValue V) <? 1); reflexivity.
Qed.

(** X5. [#pragma unroll] with a value argument is always a count: the
    handler looks neither at the keyword of the argument nor at the option.
    With a constant expression whose converted value is at least 1 it
    decodes [UnrollCount] with that value; in every other case (no
    expression, no constant, a smaller value) it reports an invalid value at
    the value argument and returns nothing.  It never decodes the plain
    [Unroll] then. *)
Theorem pragma_unroll_count (St : Stmt) (A : AttributeListT) (R : SourceRange)
    (O : string) (VL : IdentifierLoc) (VE : option Expr) (S : Sema) :
  notLoop St = false ->
  HasLoopHintArgs A "unroll" O (Some VL) VE ->
  let Count v :=
    LoopHint (LoopHintAttr.CreateImplicit LoopHintAttr.Pragma_unroll
                LoopHintAttr.UnrollCount v (getRange A)) in
  (forall E V, VE = Some E -> isIntegerConstantExpr E = Some V ->
               1 <= toInt (getSExtValue V) ->
               handleLoopHintAttr St A R S
               = Some (Some (Count (toInt (getSExtValue V))), S))
  /\ (VE = None
      \/ (exists E, VE = Some E
                    /\ (isIntegerConstantExpr E = None
                        \/ exists V, isIntegerConstantExpr E = Some V
                                     /\ toInt (getSExtValue V) < 1)) ->
      handleLoopHintAttr St A R S = Some (None, report S [InvalidValue VL]))
  /\ (forall At S', handleLoopHintAttr St A R S = Some (Some At, S') ->
                    exists v, At = Count v /\ 1 <= v).
Proof.
  intros HL HA Count. rewrite (pragma_unroll_count_aux _ _ _ _ _ _ _ HL HA).
  split; [|split].
  - intros E V -> -> Hv.
    destruct (Z.ltb_spec (toInt (getSExtValue V)) 1); [lia|reflexivity].
  - intros [-> | [E [-> [-> | [V [-> Hv]]]]]]; try reflexivity.
    destruct (Z.ltb_spec (toInt (getSExtValue V)) 1); [reflexivity|lia].
  - intros At S' D. destruct VE as [E|]; [|discriminate D].
    destruct (isIntegerConstantExpr E) as [V|]; [|discriminate D].
    destruct (Z.ltb_spec (toInt (getSExtValue V)) 1); [discriminate D|].
    injection D as <- <-. eexists. split; [reflexivity|assumption].
Qed.

(** ** One attribute through the dispatch *)

Lemma ProcessStmtAttribute_result (St : Stmt) (A : AttributeListT)
    (Range : SourceRange) (S : Sema) (r : option Attr) (S' : Sema) :
  ProcessStmtAttribute St A Range S = Some (r, S') ->
  match r with
  | Some At => FitsStmt St At /\ S' = S
  | None => exists d ds, S' = report S (d :: ds) /\ (List.length ds <= 1)%nat
  end.
Proof.
  unfold ProcessStmtAttribute. destruct (getKind A).
  - intros D. injection D as <- <-. exists (UnknownAttributeIgnored A), [].
    auto.
  - rewrite handleFallThroughAttr_cases.
    destruct (negb (isa_NullStmt St)) eqn:HN.
    + intros D. injection D as <- <-. eexists. eexists. split; [reflexivity|].
      destruct (isa_SwitchCase St); cbn; auto.
    + destruct (SwitchStack (getCurFunction S)); intros D;
        injection D as <- <-.
      * exists (OutsideSwitch A), []. auto.
      * split; [|reflexivity]. cbn. now destruct (isa_NullStmt St).
  - intros D. pose proof (handleLoopHintAttr_result _ _ _ _ _ _ D) as H.
    destruct r as [At|].
    + destruct H as [LH [-> [V [_ [HL ->]]]]]. cbn. auto.
    + destruct H as [d ->]. exists d, []. auto.
  - intros D. injection D as <- <-. exists (InvalidOnStmt St A), []. auto.
Qed.

(** X6. No attribute is dropped in silence and none is attached with a
    complaint: when the dispatch returns an attribute nothing has been
    reported, and when it returns none it has reported one diagnostic, or
    two (the fallthrough error with its note). *)
Theorem attribute_or_diagnostic (St : Stmt) (A : AttributeListT)
    (Range : SourceRange) (S S' : Sema) (r : option Attr) :
  ProcessStmtAttribute St A Range S = Some (r, S') ->
  exists ds,
    S' = report S ds
    /\ (List.length ds <= 2)%nat
    /\ (r = None <-> ds <> []).
Proof.
  intros D. pose proof (ProcessStmtAttribute_result _ _ _ _ _ _ D) as H.
  destruct r as [At|].
  - destruct H as [_ ->]. exists []. rewrite report_nil.
    repeat split; cbn; auto; try lia; try discriminate.
    intros N. now elim N.
  - destruct H as [d [ds [-> L]]]. exists (d :: ds).
    repeat split; cbn; auto; try lia. discriminate.
Qed.

(** ** The driver *)

(** The loop of the driver appends to its vector the attributes that fit
    the statement, in the order of the list, and reports at least one
    diagnostic for each attribute it drops. *)
Lemma ProcessLoop_result (St : Stmt) (Range : SourceRange)
    (l : list AttributeListT) :
  forall (acc : list Attr) (S : Sema) (Attrs : list Attr) (S' : Sema),
    ProcessLoop St l Range acc S = Some (Attrs, S') ->
    exists new ds,
      Attrs = (acc ++ new)%list /\ S' = report S ds
      /\ Forall (FitsStmt St) new
      /\ (List.length new <= List.length l)%nat
      /\ (List.length l <= List.length new + List.length ds)%nat
      /\ (new = [] -> l = [] \/ ds <> []).
Proof.
  induction l as [|A l IH]; intros acc S Attrs S' D.
  - injection D as <- <-. exists [], []. rewrite app_nil_r, report_nil.
    repeat split; auto.
  - cbn [ProcessLoop] in D. unfold bind in D.
    destruct (ProcessStmtAttribute St A Range S) as [[r S1]|] eqn:HA;
      [|discriminate D].
    pose proof (ProcessStmtAttribute_result _ _ _ _ _ _ HA) as HR.
    destruct (IH _ _ _ _ D) as [new [ds [-> [-> [HF [L1 [L2 HE]]]]]]].
    destruct r as [At|].
    + destruct HR as [Fit ->]. exists (At :: new), ds.
      rewrite <- app_assoc. cbn.
      repeat split; auto; try lia. discriminate.
    + destruct HR as [d [ds0 [-> L0]]]. exists new, ((d :: ds0) ++ ds)%list.
      rewrite report_app. rewrite length_app. cbn.
      repeat split; auto; try lia. intros _. right. discriminate.
Qed.

(** The driver, from its loop and the run of the check. *)
Lemma driver_result_aux (St : Stmt) (AttrList : list AttributeListT)
    (Range : SourceRange) (S S' : Sema) (Res : StmtResult) :
  ProcessStmtAttributes St AttrList Range S = Some (Res, S') ->
  exists Attrs ds,
    ProcessLoop St AttrList Range [] S = Some (Attrs, report S ds)
    /\ S' = report S (ds ++ LoopReported HintAttrsInit Attrs)
    /\ Res = match Attrs with
             | [] => PlainStmt St
             | _ :: _ => AttributedStmt (getBegin Range) Attrs St
             end
    /\ Forall (FitsStmt St) Attrs.
Proof.
  unfold ProcessStmtAttributes, bind. intros D.
  destruct (ProcessLoop St AttrList Range [] S) as [[Attrs S1]|] eqn:HP;
    [|discriminate D].
  destruct (ProcessLoop_result _ _ _ _ _ _ _ HP)
    as [new [ds [E [-> [HF _]]]]].
  cbn [app] in E. subst new.
  rewrite CheckForIncompatibleAttributes_run, report_app in D.
  exists Attrs, ds. split; [reflexivity|].
  destruct Attrs; injection D as <- <-; auto.
Qed.

(** X7. What the driver does with a statement and its attribute list: it
    only adds diagnostics, first those of the attributes, one attribute
    after the other, then those of the compatibility check over the
    attributes it has kept; the check takes none of them away, so that
    conflicting hints stay attached.  The result is always about the
    statement it was given: the statement itself when no attribute was kept,
    and else the attributed statement at the beginning of the range with the
    kept attributes, which are no more than the list had; every attribute
    that was not kept has left at least one diagnostic. *)
Theorem driver_result (St : Stmt) (AttrList : list AttributeListT)
    (Range : SourceRange) (S S' : Sema) (Res : StmtResult) :
  ProcessStmtAttributes St AttrList Range S = Some (Res, S') ->
  exists Attrs ds,
    ProcessLoop St AttrList Range [] S = Some (Attrs, report S ds)
    /\ S' = report S (ds ++ LoopReported HintAttrsInit Attrs)
    /\ Res = match Attrs with
             | [] => PlainStmt St
             | _ :: _ => AttributedStmt (getBegin Range) Attrs St
             end
    /\ (List.length Attrs <= List.length AttrList)%nat
    /\ (List.length AttrList <= List.length Attrs + List.length ds)%nat.
Proof.
  unfold ProcessStmtAttributes, bind. intros D.
  destruct (ProcessLoop St AttrList Range [] S) as [[Attrs S1]|] eqn:HP;
    [|discriminate D].
  destruct (ProcessLoop_result _ _ _ _ _ _ _ HP)
    as [new [ds [E [-> [_ [L1 [L2 _]]]]]]].
  cbn [app] in E. subst new.
  rewrite CheckForIncompatibleAttributes_run, report_app in D.
  exists Attrs, ds. split; [reflexivity|].
  destruct Attrs; injection D as <- <-; auto.
Qed.

(** Without loop hints the compatibility check has nothing to report. *)
Lemma LoopReported_no_hints (Attrs : list Attr) (H : HintAttrsT) :
  Forall (fun At => isLoopHint At = false) Attrs -> LoopReported H Attrs = [].
Proof.
  induction 1 as [|At Attrs HA _ IH]; [reflexivity|].
  destruct At as [Rg n|LH]; [exact IH | discriminate HA].
Qed.

Lemma null_is_no_loop (St : Stmt) : isa_NullStmt St = true -> notLoop St = true.
Proof.
  unfold isa_NullStmt, notLoop. intros E. apply StmtClass_eqb_eq in E.
  now rewrite E.
Qed.

(** X8. The attributes the driver attaches fit the statement.  On a
    statement that is neither a null statement nor a loop it attaches
    nothing, whatever the list.  On a null statement it attaches only
    fallthrough attributes, and the compatibility check reports nothing; on
    a loop it attaches only valid loop hints.  So a statement never carries
    a fallthrough attribute and a loop hint together. *)
Theorem attached_attributes_fit (St : Stmt) (AttrList : list AttributeListT)
    (Range : SourceRange) (S S' : Sema) (Res : StmtResult) :
  ProcessStmtAttributes St AttrList Range S = Some (Res, S') ->
  (isa_NullStmt St = false -> notLoop St = true -> Res = PlainStmt St)
  /\ (forall L Attrs St',
        Res = AttributedStmt L Attrs St' ->
        Attrs <> []
        /\ ((isa_NullStmt St = true
             /\ Forall (fun At => isLoopHint At = false) Attrs
             /\ exists ds, ProcessLoop St AttrList Range [] S
                           = Some (Attrs, S') /\ S' = report S ds)
            \/ (notLoop St = false
                /\ Forall (fun At => exists LH, At = LoopHint LH
                                                /\ ValidHint LH = true)
                          Attrs))).
Proof.
  intros D.
  destruct (driver_result_aux St AttrList Range S S' Res D)
    as [Attrs [ds [HP [HS [HR HF]]]]].
  split.
  - intros HN HL. rewrite HR. destruct Attrs as [|At Attrs]; [reflexivity|].
    inversion HF as [|x xs Fit _]; subst.
    destruct At as [Rg n|LH]; cbn in Fit.
    + congruence.
    + destruct Fit as [Fit _]. congruence.
  - intros L Attrs0 St' E. rewrite HR in E.
    destruct Attrs as [|At Attrs]; [discriminate E|].
    injection E as <- <- <-. split; [discriminate|].
    destruct (isa_NullStmt St) eqn:HN.
    + left. split; [reflexivity|].
      assert (HA : Forall (fun At => isLoopHint At = false) (At :: Attrs)).
      { apply Forall_impl with (2 := HF). intros [Rg n|LH] Fit;
          [reflexivity|]. destruct Fit as [Fit _].
        rewrite (null_is_no_loop St HN) in Fit. discriminate Fit. }
      split; [exact HA|]. exists ds.
      rewrite (LoopReported_no_hints _ _ HA), app_nil_r in HS.
      subst S'. auto.
    + right.
      assert (HA : Forall (fun At => exists LH, At = LoopHint LH
                                               /\ ValidHint LH = true)
                          (At :: Attrs)).
      { apply Forall_impl with (2 := HF). intros [Rg n|LH] Fit; cbn in Fit;
          [congruence|]. destruct Fit as [_ V]. eauto. }
      split; [|exact HA].
      inversion HF as [|x xs Fit _]; subst.
      destruct At as [Rg n|LH]; cbn in Fit; [congruence | exact (proj1 Fit)].
Qed.

(** With its arguments in place the loop hint handler returns. *)
Lemma handleLoopHintAttr_returns (St : Stmt) (A : AttributeListT)
    (R : SourceRange) (P O : string) (VL : option IdentifierLoc)
    (VE : option Expr) (S : Sema) :
  HasLoopHintArgs A P O VL VE -> (GenericPragma P -> VL <> None) ->
  exists r S', handleLoopHintAttr St A R S = Some (r, S').
Proof.
  intros HA HV. destruct (notLoop St) eqn:HL.
  { rewrite (handleLoopHintAttr_args _ _ _ _ _ _ _ _ HA), HL.
    do 2 eexists; reflexivity. }
  destruct (String.eqb P "unroll") eqn:E1.
  - apply String.eqb_eq in E1. subst P. destruct VL as [V|].
    + rewrite (pragma_unroll_count_aux _ _ _ _ _ _ _ HL HA).
      destruct VE as [E|]; [|do 2 eexists; reflexivity].
      destruct (isIntegerConstantExpr E) as [c|]; [|do 2 eexists; reflexivity].
      destruct (toInt (getSExtValue c) <? 1); do 2 eexists; reflexivity.
    + rewrite (handleLoopHintAttr_args _ _ _ _ _ _ _ _ HA), HL. cbn.
      do 2 eexists; reflexivity.
  - destruct (String.eqb P "nounroll") eqn:E2.
    + apply String.eqb_eq in E2. subst P.
      rewrite (handleLoopHintAttr_args _ _ _ _ _ _ _ _ HA), HL. cbn.
      do 2 eexists; reflexivity.
    + apply String.eqb_neq in E1, E2.
      assert (HG : GenericPragma P) by (split; assumption).
      destruct VL as [V|]; [|now elim (HV HG)].
      destruct (isEnableOption (OptionSwitch O)) eqn:HE.
      * rewrite (handleLoopHintAttr_generic _ _ _ _ _ _ _ _ HA HG HL).
        cbv beta iota. rewrite (selectValue_enable _ V VE S HE).
        destruct (Ident V) as [k|]; [|do 2 eexists; reflexivity].
        destruct (String.eqb k "disable"); [do 2 eexists; reflexivity|].
        destruct (String.eqb k (TrueKeywordOf (OptionSwitch O)));
          do 2 eexists; reflexivity.
      * assert (HN : isNumericOption (OptionSwitch O) = true)
          by (destruct (OptionSwitch O); try discriminate HE; reflexivity).
        rewrite (handleLoopHintAttr_numeric _ _ _ _ _ _ _ _ HA HG HL HN).
        destruct VE as [E|]; [|do 2 eexists; reflexivity].
        destruct (isIntegerConstantExpr E) as [c|];
          [|do 2 eexists; reflexivity].
        destruct (toInt (getSExtValue c) <? 1); do 2 eexists; reflexivity.
Qed.

Lemma ProcessStmtAttribute_returns (St : Stmt) (A : AttributeListT)
    (Range : SourceRange) (S : Sema) :
  WellFormedArgs A ->
  exists r S', ProcessStmtAttribute St A Range S = Some (r, S').
Proof.
  intros W. unfold ProcessStmtAttribute. destruct (getKind A) eqn:K.
  - cbn. do 2 eexists; reflexivity.
  - rewrite handleFallThroughAttr_cases.
    destruct (negb (isa_NullStmt St)); [do 2 eexists; reflexivity|].
    destruct (SwitchStack (getCurFunction S)); do 2 eexists; reflexivity.
  - destruct (W K) as [P [O [VL [VE [HA HV]]]]].
    now apply (handleLoopHintAttr_returns St A Range P O VL VE).
  - cbn. do 2 eexists; reflexivity.
Qed.

(** X9. When every loop hint attribute of the list has the arguments the
    handler reads (pragma name and option with their identifiers, and for
    [#pragma clang loop] a value argument), the driver returns a result for
    every statement and every state of Sema, and all it does to Sema is to
    add diagnostics. *)
Theorem driver_returns (St : Stmt) (AttrList : list AttributeListT)
    (Range : SourceRange) (S : Sema) :
  Forall WellFormedArgs AttrList ->
  exists Res ds,
    ProcessStmtAttributes St AttrList Range S = Some (Res, report S ds).
Proof.
  intros W.
  assert (HL : forall acc S0, exists Attrs S1,
             ProcessLoop St AttrList Range acc S0 = Some (Attrs, S1)).
  { induction W as [|A l WA _ IH]; intros acc S0; [cbn; unfold ret; eauto|].
    cbn [ProcessLoop]. unfold bind.
    destruct (ProcessStmtAttribute_returns St A Range S0 WA) as [r [S1 ->]].
    apply IH. }
  destruct (HL [] S) as [Attrs [S1 HP]].
  destruct (ProcessLoop_result _ _ _ _ _ _ _ HP) as [new [ds [_ [-> _]]]].
  unfold ProcessStmtAttributes, bind.
  rewrite HP, CheckForIncompatibleAttributes_run, report_app.
  destruct Attrs; unfold ActOnAttributedStmt, ret; eauto.
Qed.

(** X10. Fallthrough attributes on a null statement inside a switch are
    all attached, in the order of the list and each with its own range and
    spelling index, as the attributes of one attributed statement at the
    beginning of the range; nothing is reported, however many there are. *)
Theorem fallthrough_attributes_attached (St : Stmt)
    (AttrList : list AttributeListT) (Range : SourceRange) (S : Sema) :
  getStmtClass St = NullStmtClass ->
  SwitchStack (getCurFunction S) <> [] ->
  Forall (fun A => getKind A = AttributeList.AT_FallThrough) AttrList ->
  AttrList <> [] ->
  ProcessStmtAttributes St AttrList Range S
  = Some (AttributedStmt (getBegin Range)
            (map (fun A => FallThroughAttr (getRange A)
                             (getAttributeSpellingListIndex A)) AttrList)
            St, S).
Proof.
  intros HN HS HF HE.
  set (f := fun A => FallThroughAttr (getRange A)
                       (getAttributeSpellingListIndex A)).
  assert (HL : forall acc, ProcessLoop St AttrList Range acc S
                           = Some ((acc ++ map f AttrList)%list, S)).
  { clear HE. induction HF as [|A l HK _ IH]; intros acc.
    - cbn. now rewrite app_nil_r.
    - cbn [ProcessLoop]. unfold bind, ProcessStmtAttribute. rewrite HK.
      rewrite handleFallThroughAttr_cases. unfold isa_NullStmt. rewrite HN.
      cbn [StmtClass_eqb negb].
      destruct (SwitchStack (getCurFunction S)); [now elim HS|].
      rewrite IH, <- app_assoc. reflexivity. }
  unfold ProcessStmtAttributes, bind. rewrite HL. cbn [app].
  rewrite CheckForIncompatibleAttributes_run.
  rewrite LoopReported_no_hints, report_nil.
  - destruct AttrList; [now elim HE | reflexivity].
  - apply Forall_forall. intros At HI. apply in_map_iff in HI.
    destruct HI as [A [<- _]]. reflexivity.
Qed.

(** ** The compatibility check, category by category *)

Lemma filter_all {A} (f : A -> bool) (l : list A) :
  (forall x, In x l -> f x = true) -> filter f l = l.
Proof.
  induction l as [|x l IH]; intros Hf; cbn; [reflexivity|].
  rewrite (Hf x (or_introl eq_refl)), IH; [reflexivity|].
  intros y Hy. apply Hf. now right.
Qed.

Lemma filter_none {A} (f : A -> bool) (l : list A) :
  (forall x, In x l -> f x = false) -> filter f l = [].
Proof.
  induction l as [|x l IH]; intros Hf; cbn; [reflexivity|].
  rewrite (Hf x (or_introl eq_refl)). apply IH.
  intros y Hy. apply Hf. now right.
Qed.

(** Every message of the round of a hint is about the hint's category. *)
Lemma ReportedBy_about (H : HintAttrsT) (LH : LoopHintAttr.t) (C : Category)
    (d : Diagnostic) :
  SlotsInCategory H -> In d (ReportedBy H (LoopHint LH)) ->
  aboutCategory C d
  = Category_eqb (CategoryOf (LoopHintAttr.getOption LH)) C.
Proof.
  intros W Hin. rewrite ReportedBy_LoopHint in Hin.
  apply in_app_iff in Hin. destruct Hin as [Hin|Hin].
  - destruct (PrevAttrOf H LH) as [P|] eqn:HP; [|contradiction].
    destruct Hin as [<-|[]]. unfold aboutCategory, DiagCategory. cbn.
    now rewrite (proj1 (PrevAttrOf_category H LH P W HP)).
  - destruct (EnableAttr (NewCategoryState H LH)) as [E|] eqn:HE;
      [|contradiction].
    destruct (NumericAttr (NewCategoryState H LH)) as [N|]; [|contradiction].
    destruct (Category_eqb (CategoryOf (LoopHintAttr.getOption LH)) Unroll
              || (LoopHintAttr.getValue E =? 0)); [|contradiction].
    destruct Hin as [<-|[]]. unfold aboutCategory, DiagCategory. cbn.
    now rewrite (NewCategoryState_category H LH E W (or_introl HE)).
Qed.

(** The round of a hint reads the array at the hint's category only. *)
Lemma round_reads_own_category (H H' : HintAttrsT) (LH : LoopHintAttr.t) :
  HintAttrs_get H (CategoryOf (LoopHintAttr.getOption LH))
  = HintAttrs_get H' (CategoryOf (LoopHintAttr.getOption LH)) ->
  ReportedBy H (LoopHint LH) = ReportedBy H' (LoopHint LH)
  /\ NewCategoryState H LH = NewCategoryState H' LH.
Proof.
  intros E. rewrite !ReportedBy_LoopHint.
  unfold PrevAttrOf, NewCategoryState. rewrite E. auto.
Qed.

Lemma category_filter (C : Category) (Attrs : list Attr) :
  forall H H',
    SlotsInCategory H -> HintAttrs_get H C = HintAttrs_get H' C ->
    filter (aboutCategory C) (LoopReported H Attrs)
    = LoopReported H' (filter (inCategory C) Attrs).
Proof.
  induction Attrs as [|I Attrs IH]; intros H H' W E; [reflexivity|].
  destruct I as [Rg n|LH].
  - cbn. now apply IH.
  - cbn [LoopReported filter inCategory dyn_cast_LoopHintAttr].
    rewrite filter_app.
    pose proof (SlotsInCategory_step H (LoopHint LH) W) as W'.
    destruct (Category_eqb (CategoryOf (LoopHintAttr.getOption LH)) C) eqn:EC.
    + apply Category_eqb_eq in EC. subst C.
      destruct (round_reads_own_category H H' LH E) as [ER EN].
      cbn [LoopReported]. rewrite <- ER. f_equal.
      * apply filter_all. intros d Hd.
        rewrite (ReportedBy_about H LH _ d W Hd). apply Category_eqb_refl.
      * apply IH; [exact W'|].
        rewrite !StateAfter_LoopHint, !HintAttrs_get_set_same. exact EN.
    + rewrite filter_none.
      * cbn [app]. apply IH; [exact W'|].
        rewrite StateAfter_LoopHint, HintAttrs_get_set_other; [exact E|].
        intros EQ. rewrite EQ, Category_eqb_refl in EC. discriminate EC.
      * intros d Hd. now rewrite (ReportedBy_about H LH C d W Hd).
Qed.

(** Every message of the check is about the category of a hint of the
    list. *)
Lemma reported_about_some (Attrs : list Attr) (d : Diagnostic) :
  In d (LoopReported HintAttrsInit Attrs) ->
  exists LH, In (LoopHint LH) Attrs
             /\ aboutCategory (CategoryOf (LoopHintAttr.getOption LH)) d = true
             /\ (countDuplicate (CategoryOf (LoopHintAttr.getOption LH)) [d]
                 + countIncompatible
                     (CategoryOf (LoopHintAttr.getOption LH)) [d]
                 = 1)%nat.
Proof.
  intros Hin. apply In_LoopReported in Hin.
  destruct Hin as [pre [I [post [-> Hd]]]].
  destruct I as [Rg n|LH]; [contradiction|].
  pose proof (SlotsInCategory_loop pre _ SlotsInCategory_init) as W.
  exists LH. split; [apply in_elt|].
  assert (Ha : aboutCategory (CategoryOf (LoopHintAttr.getOption LH)) d = true).
  { rewrite (ReportedBy_about _ LH _ d W Hd). apply Category_eqb_refl. }
  split; [exact Ha|]. unfold countDuplicate, countIncompatible. cbn.
  rewrite Ha, !andb_true_r.
  rewrite ReportedBy_LoopHint in Hd. apply in_app_iff in Hd.
  destruct Hd as [Hd|Hd].
  - destruct (PrevAttrOf _ LH); [|contradiction]. now destruct Hd as [<-|[]].
  - destruct (EnableAttr _) as [E|]; [|contradiction].
    destruct (NumericAttr _); [|contradiction].
    destruct (Category_eqb _ Unroll || _); [|contradiction].
    now destruct Hd as [<-|[]].
Qed.

(** X11. The categories do not interfere: what the check reports about a
    category over a list of attributes is just what it reports over the
    hints of that category alone, in the same order; attributes that are no
    loop hints and hints of the other categories change nothing about it.
    Every message of the check is about the category of a hint of the list,
    and is either a duplicate or an incompatibility message. *)
Theorem categories_are_independent (Attrs : list Attr) (C : Category) :
  filter (aboutCategory C) (LoopReported HintAttrsInit Attrs)
  = LoopReported HintAttrsInit (filter (inCategory C) Attrs)
  /\ (forall d, In d (LoopReported HintAttrsInit Attrs) ->
        exists LH,
          In (LoopHint LH) Attrs
          /\ aboutCategory (CategoryOf (LoopHintAttr.getOption LH)) d = true
          /\ (isDuplicateHint d = true \/ isIncompatibleHint d = true)).
Proof.
  split.
  - apply category_filter; [apply SlotsInCategory_init | reflexivity].
  - intros d Hd. destruct (reported_about_some Attrs d Hd) as [LH [HI [HA HC]]].
    exists LH. split; [exact HI|]. split; [exact HA|].
    unfold countDuplicate, countIncompatible in HC. cbn in HC.
    rewrite HA, !andb_true_r in HC.
    destruct (isDuplicateHint d); [now left|].
    destruct (isIncompatibleHint d); [now right | discriminate HC].
Qed.

(** X12. When no category has more than one hint in the list, the check
    reports nothing at all; in particular hints of different categories
    never conflict, whatever their values. *)
Theorem one_hint_per_category (Attrs : list Attr) (S : Sema) :
  (forall C, (countHints C Attrs <= 1)%nat) ->
  CheckForIncompatibleAttributes Attrs S = Some (tt, S).
Proof.
  intros HC. rewrite CheckForIncompatibleAttributes_run.
  assert (E : LoopReported HintAttrsInit Attrs = []).
  { destruct (LoopReported HintAttrsInit Attrs) as [|d ds] eqn:ER;
      [reflexivity|].
    assert (Hd : In d (LoopReported HintAttrsInit Attrs))
      by (rewrite ER; now left).
    destruct (reported_about_some Attrs d Hd) as [LH [_ [HA _]]].
    set (C := CategoryOf (LoopHintAttr.getOption LH)) in *.
    assert (Hf : In d (filter (aboutCategory C)
                              (LoopReported HintAttrsInit Attrs)))
      by (apply filter_In; auto).
    rewrite (category_filter C Attrs _ HintAttrsInit SlotsInCategory_init
               eq_refl) in Hf.
    specialize (HC C). unfold countHints in HC.
    destruct (filter (inCategory C) Attrs) as [|I [|J l]];
      [contradiction| |cbn in HC; lia].
    destruct I as [Rg n|LH0]; [contradiction|].
    destruct LH0 as [sp op v r]. destruct op; cbn in Hf; contradiction. }
  now rewrite E, report_nil.
Qed.

(** ** The compatibility check, read off the list *)

Lemma OptionType_eqb_eq (a b : LoopHintAttr.OptionType) :
  LoopHintAttr.OptionType_eqb a b = true <-> a = b.
Proof. destruct a, b; cbn; split; intros E; try reflexivity; discriminate. Qed.

(** The round of a hint puts the hint in the slot of its option and leaves
    the other slots alone. *)
Lemma SlotOf_step (H : HintAttrsT) (LH : LoopHintAttr.t)
    (o : LoopHintAttr.OptionType) :
  SlotOf (StateAfter H (LoopHint LH)) o
  = if LoopHintAttr.OptionType_eqb (LoopHintAttr.getOption LH) o
    then Some LH else SlotOf H o.
Proof.
  rewrite StateAfter_LoopHint. unfold SlotOf, NewCategoryState.
  destruct LH as [sp op v r]. cbn [LoopHintAttr.getOption].
  destruct op, o; reflexivity.
Qed.

(** After the loop over a list, the slot of an option holds the last hint
    of the list with that option, or what it held before when there is
    none. *)
Lemma SlotOf_loop (o : LoopHintAttr.OptionType) (Attrs : list Attr) :
  forall H,
    SlotOf (LoopState H Attrs) o
    = match LatestWithOption o Attrs with
      | Some LH => Some LH
      | None => SlotOf H o
      end.
Proof.
  induction Attrs as [|I Attrs IH]; intros H; [reflexivity|].
  cbn [LoopState LatestWithOption]. rewrite IH.
  destruct (LatestWithOption o Attrs); [reflexivity|].
  destruct I as [Rg n|LH]; [reflexivity|]. rewrite SlotOf_step.
  cbn [dyn_cast_LoopHintAttr].
  now destruct (LoopHintAttr.OptionType_eqb (LoopHintAttr.getOption LH) o).
Qed.

Lemma LatestWithOption_app (o : LoopHintAttr.OptionType)
    (Attrs1 Attrs2 : list Attr) :
  LatestWithOption o (Attrs1 ++ Attrs2)
  = match LatestWithOption o Attrs2 with
    | Some LH => Some LH
    | None => LatestWithOption o Attrs1
    end.
Proof.
  induction Attrs1 as [|I Attrs1 IH]; cbn.
  - now destruct (LatestWithOption o Attrs2).
  - rewrite IH. now destruct (LatestWithOption o Attrs2).
Qed.

Lemma LatestWithOption_Some (o : LoopHintAttr.OptionType) (Attrs : list Attr)
    (LH : LoopHintAttr.t) :
  LatestWithOption o Attrs = Some LH ->
  In (LoopHint LH) Attrs /\ LoopHintAttr.getOption LH = o.
Proof.
  induction Attrs as [|I Attrs IH]; cbn; [discriminate|].
  destruct (LatestWithOption o Attrs) as [X|].
  - intros E. destruct (IH E). auto.
  - destruct I as [Rg n|X]; cbn; [discriminate|].
    destruct (LoopHintAttr.OptionType_eqb (LoopHintAttr.getOption X) o) eqn:EO;
      [|discriminate].
    intros E. injection E as <-. apply OptionType_eqb_eq in EO. auto.
Qed.

Lemma LatestWithOption_None (o : LoopHintAttr.OptionType) (Attrs : list Attr) :
  LatestWithOption o Attrs = None <->
  (forall LH, In (LoopHint LH) Attrs -> LoopHintAttr.getOption LH <> o).
Proof.
  induction Attrs as [|I Attrs IH]; cbn.
  - split; [intros _ LH []|reflexivity].
  - destruct (LatestWithOption o Attrs) as [X|].
    + split; [discriminate|]. intros Hn. apply IH.
      intros LH Hin. apply Hn. now right.
    + destruct IH as [IH _]. specialize (IH eq_refl).
      destruct I as [Rg n|X]; cbn.
      * split; [|reflexivity]. intros _ LH [D|Hin]; [discriminate D|].
        now apply IH.
      * destruct (LoopHintAttr.OptionType_eqb (LoopHintAttr.getOption X) o)
          eqn:EO.
        -- split; [discriminate|]. intros Hn. apply OptionType_eqb_eq in EO.
           now elim (Hn X (or_introl eq_refl)).
        -- split; [|reflexivity]. intros _ LH [D|Hin]; [|now apply IH].
           injection D as <-. intros EQ. apply OptionType_eqb_eq in EQ.
           rewrite EQ in EO. discriminate EO.
Qed.

Lemma SlotOf_init (o : LoopHintAttr.OptionType) : SlotOf HintAttrsInit o = None.
Proof. now destruct o. Qed.

(** X13. A hint is reported as a duplicate exactly when an earlier hint
    of the list has the same option; the message then names the last such
    hint as the previous one and the hint itself as the current one, at the
    beginning of the hint's range.  After its round the hint is the one kept
    for its option, so that a third hint with the option is reported against
    it and not against the first. *)
Theorem duplicate_names_latest (pre : list Attr) (LH : LoopHintAttr.t) :
  let o := LoopHintAttr.getOption LH in
  let ds := ReportedBy (LoopState HintAttrsInit pre) (LoopHint LH) in
  filter isDuplicateHint ds
  = match LatestWithOption o pre with
    | Some Prev =>
        [DuplicateHint (getBegin (LoopHintAttr.getRange LH)) Prev LH]
    | None => []
    end
  /\ ((exists d, In d ds /\ isDuplicateHint d = true)
      <-> exists Prev, In (LoopHint Prev) pre
                       /\ LoopHintAttr.getOption Prev = o)
  /\ (forall post, LatestWithOption o post = None ->
        SlotOf (LoopState HintAttrsInit (pre ++ LoopHint LH :: post)) o
        = Some LH).
Proof.
  intros o ds.
  assert (E : filter isDuplicateHint ds
              = match LatestWithOption o pre with
                | Some Prev =>
                    [DuplicateHint (getBegin (LoopHintAttr.getRange LH))
                                   Prev LH]
                | None => []
                end).
  { subst ds. rewrite ReportedBy_duplicate.
    change (PrevAttrOf (LoopState HintAttrsInit pre) LH)
      with (SlotOf (LoopState HintAttrsInit pre) o).
    rewrite SlotOf_loop, SlotOf_init.
    now destruct (LatestWithOption o pre). }
  split; [exact E|]. split.
  - split.
    + intros [d [Hin Hd]].
      assert (Hf : In d (filter isDuplicateHint ds))
        by (apply filter_In; auto).
      rewrite E in Hf.
      destruct (LatestWithOption o pre) as [P|] eqn:HP; [|contradiction].
      exists P. now apply LatestWithOption_Some.
    + intros [P [HI HO]].
      destruct (LatestWithOption o pre) as [Q|] eqn:HQ.
      * exists (DuplicateHint (getBegin (LoopHintAttr.getRange LH)) Q LH).
        split; [|reflexivity].
        apply (proj1 (filter_In isDuplicateHint _ ds)). rewrite E. now left.
      * exfalso. exact (proj1 (LatestWithOption_None o pre) HQ P HI HO).
  - intros post HN. rewrite SlotOf_loop, LatestWithOption_app.
    cbn [LatestWithOption dyn_cast_LoopHintAttr]. rewrite HN.
    subst o. now rewrite (proj2 (OptionType_eqb_eq _ _) eq_refl).
Qed.

Lemma EnableAttr_SlotOf (H : HintAttrsT) (C : Category) :
  EnableAttr (HintAttrs_get H C) = SlotOf H (EnableOptionOf C).
Proof. now destruct C. Qed.

Lemma NumericAttr_SlotOf (H : HintAttrsT) (C : Category) :
  NumericAttr (HintAttrs_get H C) = SlotOf H (NumericOptionOf C).
Proof. now destruct C. Qed.

(** X14. Whether the round of a hint reports an incompatibility is decided
    by two hints of the list alone: the last enable-form hint and the last
    numeric-form hint of the hint's category, up to and with the hint
    itself.  When both exist and the category is unroll or that enable-form
    hint has the value 0, these two are reported, at the beginning of the
    hint's range; earlier hints of the category, once followed by another of
    their form, play no part. *)
Theorem incompatible_looks_at_latest (pre : list Attr) (LH : LoopHintAttr.t) :
  let C := CategoryOf (LoopHintAttr.getOption LH) in
  let sofar := (pre ++ [LoopHint LH])%list in
  filter isIncompatibleHint
         (ReportedBy (LoopState HintAttrsInit pre) (LoopHint LH))
  = match LatestWithOption (EnableOptionOf C) sofar,
          LatestWithOption (NumericOptionOf C) sofar with
    | Some Enable, Some Numeric =>
        if Category_eqb C Unroll || (LoopHintAttr.getValue Enable =? 0)
        then [IncompatibleHint (getBegin (LoopHintAttr.getRange LH))
                               Enable Numeric]
        else []
    | _, _ => []
    end.
Proof.
  intros C sofar. rewrite ReportedBy_incompatible.
  assert (ES : NewCategoryState (LoopState HintAttrsInit pre) LH
               = HintAttrs_get (LoopState HintAttrsInit sofar) C).
  { subst sofar. rewrite LoopState_app. cbn [LoopState].
    now rewrite StateAfter_LoopHint, HintAttrs_get_set_same. }
  rewrite ES, EnableAttr_SlotOf, NumericAttr_SlotOf, !SlotOf_loop, !SlotOf_init.
  fold C.
  destruct (LatestWithOption (EnableOptionOf C) sofar);
    destruct (LatestWithOption (NumericOptionOf C) sofar); reflexivity.
Qed.

(** X15. For an enable-form hint and a numeric-form hint of one category,
    alone on a statement, the order does not decide whether they are
    reported: either way the check reports nothing when the category is not
    unroll and the enable-form value is not 0, and else one incompatibility
    that names the enable-form hint first and the numeric-form hint second;
    only the location differs, it is that of the hint that comes second. *)
Theorem pair_in_either_order (C : Category) (e n : LoopHintAttr.t) (S : Sema) :
  LoopHintAttr.getOption e = EnableOptionOf C ->
  LoopHintAttr.getOption n = NumericOptionOf C ->
  let conflict := Category_eqb C Unroll || (LoopHintAttr.getValue e =? 0) in
  CheckForIncompatibleAttributes [LoopHint e; LoopHint n] S
  = Some (tt, report S
            (if conflict
             then [IncompatibleHint (getBegin (LoopHintAttr.getRange n)) e n]
             else []))
  /\ CheckForIncompatibleAttributes [LoopHint n; LoopHint e] S
     = Some (tt, report S
               (if conflict
                then [IncompatibleHint (getBegin (LoopHintAttr.getRange e)) e n]
                else [])).
Proof.
  intros He Hn conflict. subst conflict.
  rewrite !CheckForIncompatibleAttributes_run.
  destruct e as [sp1 o1 v1 r1], n as [sp2 o2 v2 r2]. cbn in He, Hn. subst.
  cbn [LoopHintAttr.getValue LoopHintAttr.getRange].
  destruct (v1 =? 0) eqn:E; destruct C; cbn;
    rewrite ?ReportedBy_LoopHint; cbn; rewrite ?E; split; reflexivity.
Qed.

(** X16. With three hints the order does decide.  Take a vectorize or
    interleave category, an enable-form hint with the value 0, one with
    another value, and a numeric-form hint.  When the numeric-form hint
    comes last, after the two enable-form hints, only the duplicate is
    reported; when it comes between them, the incompatibility with the
    first is reported as well. *)
Theorem later_enable_hides_disable (C : Category) (d e n : LoopHintAttr.t) :
  C <> Unroll ->
  LoopHintAttr.getOption d = EnableOptionOf C ->
  LoopHintAttr.getOption e = EnableOptionOf C ->
  LoopHintAttr.getOption n = NumericOptionOf C ->
  LoopHintAttr.getValue d = 0 -> LoopHintAttr.getValue e <> 0 ->
  LoopReported HintAttrsInit [LoopHint d; LoopHint e; LoopHint n]
  = [DuplicateHint (getBegin (LoopHintAttr.getRange e)) d e]
  /\ LoopReported HintAttrsInit [LoopHint d; LoopHint n; LoopHint e]
     = [IncompatibleHint (getBegin (LoopHintAttr.getRange n)) d n;
        DuplicateHint (getBegin (LoopHintAttr.getRange e)) d e].
Proof.
  intros HC Hd He Hn Vd Ve.
  destruct d as [sp0 o0 v0 r0], e as [sp1 o1 v1 r1], n as [sp2 o2 v2 r2].
  cbn in Hd, He, Hn, Vd, Ve. subst. apply Z.eqb_neq in Ve.
  destruct C; [| |now elim HC]; cbn;
    rewrite ?ReportedBy_LoopHint; cbn; rewrite ?Ve; split; reflexivity.
Qed.

(** ** The further properties at sample inputs *)

(** [[clang::fallthrough]] on a null statement, outside every switch. *)
Lemma fallthrough_outside_switch_witness :
  getStmtClass NullStatement = NullStmtClass
  /\ SwitchStack (getCurFunction Sema0) = []
  /\ handleFallThroughAttr NullStatement FallThroughAttribute Range0 Sema0
     = Some (None, report Sema0 [OutsideSwitch FallThroughAttribute]).
Proof.
  split; [reflexivity|]. split; [reflexivity|].
  apply (proj1 (fallthrough_outside_switch
                  NullStatement FallThroughAttribute Range0 Sema0
                  eq_refl eq_refl)).
Defined.

(** An attribute nobody knows, before a while loop. *)
Lemma foreign_attribute_dropped_witness :
  getKind UnknownAttribute <> AttributeList.AT_FallThrough
  /\ getKind UnknownAttribute <> AttributeList.AT_LoopHint
  /\ ProcessStmtAttribute WhileLoop UnknownAttribute Range0 Sema0
     = Some (None, report Sema0 [UnknownAttributeIgnored UnknownAttribute]).
Proof.
  assert (H1 : getKind UnknownAttribute <> AttributeList.AT_FallThrough)
    by (intro; discriminate).
  assert (H2 : getKind UnknownAttribute <> AttributeList.AT_LoopHint)
    by (intro; discriminate).
  split; [exact H1|]. split; [exact H2|].
  apply (proj1 (foreign_attribute_dropped
                  WhileLoop UnknownAttribute Range0 Sema0 H1 H2)).
Defined.

(** [#pragma clang loop vectorize_width(8)] before a while loop. *)
Lemma handler_builds_valid_hint_witness :
  handleLoopHintAttr WhileLoop (ClangLoopVectorizeWidth 8) Range0 Sema0
  = Some (Some (LoopHint (ClangLoopHint LoopHintAttr.VectorizeWidth 8)), Sema0)
  /\ ValidHint (ClangLoopHint LoopHintAttr.VectorizeWidth 8) = true
  /\ 1 <= 8 < 2 ^ 31.
Proof.
  assert (D : handleLoopHintAttr WhileLoop (ClangLoopVectorizeWidth 8)
                                 Range0 Sema0
              = Some (Some (LoopHint (ClangLoopHint
                                        LoopHintAttr.VectorizeWidth 8)),
                      Sema0)) by reflexivity.
  split; [exact D|].
  destruct (handler_builds_valid_hint _ _ _ _ _ _ D)
    as [LH (E & V & _ & _ & _ & _ & N)].
  injection E as <-. split; [exact V|]. apply N. reflexivity.
Defined.

(** [#pragma unroll 4] before a while loop. *)
Lemma pragma_unroll_count_witness :
  notLoop WhileLoop = false
  /\ HasLoopHintArgs (PragmaUnrollCount 4) "unroll" "unroll" (Some NumberAt3)
                     (Some (Constant 4))
  /\ handleLoopHintAttr WhileLoop (PragmaUnrollCount 4) Range0 Sema0
     = Some (Some (LoopHint (LoopHintAttr.CreateImplicit
                               LoopHintAttr.Pragma_unroll
                               LoopHintAttr.UnrollCount 4
                               (mkSourceRange 1%nat 4%nat))), Sema0).
Proof.
  assert (HA : HasLoopHintArgs (PragmaUnrollCount 4) "unroll" "unroll"
                 (Some NumberAt3) (Some (Constant 4))) by loop_hint_args.
  split; [reflexivity|]. split; [exact HA|].
  destruct (pragma_unroll_count WhileLoop (PragmaUnrollCount 4) Range0
              "unroll" NumberAt3 _ Sema0 eq_refl HA) as (G & _).
  apply (G (Constant 4) (mkAPSInt 4) eq_refl eq_refl). cbn. lia.
Defined.

(** [#pragma clang loop vectorize(enable)] before an if statement. *)
Lemma attribute_or_diagnostic_witness :
  ProcessStmtAttribute IfStatement ClangLoopVectorizeEnable Range0 Sema0
  = Some (None, report Sema0
                  [PrecedesNonLoop IfStatement "#pragma clang loop"])
  /\ exists ds,
       report Sema0 [PrecedesNonLoop IfStatement "#pragma clang loop"]
       = report Sema0 ds
       /\ (List.length ds <= 2)%nat
       /\ (@None Attr = None <-> ds <> []).
Proof.
  assert (D : ProcessStmtAttribute IfStatement ClangLoopVectorizeEnable
                                   Range0 Sema0
              = Some (None, report Sema0
                        [PrecedesNonLoop IfStatement "#pragma clang loop"]))
    by reflexivity.
  split; [exact D|]. exact (attribute_or_diagnostic _ _ _ _ _ _ D).
Defined.

(** [#pragma clang loop unroll(enable) vectorize_width(8)] before a while
    loop: the first hint is dropped for its keyword, the second attached. *)
Lemma driver_result_witness :
  ProcessStmtAttributes WhileLoop
    [ClangLoopUnrollEnable; ClangLoopVectorizeWidth 8] Range0 Sema0
  = Some (AttributedStmt 0%nat
            [LoopHint (ClangLoopHint LoopHintAttr.VectorizeWidth 8)] WhileLoop,
          report Sema0 [InvalidKeyword (KeywordAt3 "enable") "full"])
  /\ exists Attrs ds,
       ProcessLoop WhileLoop [ClangLoopUnrollEnable; ClangLoopVectorizeWidth 8]
                   Range0 [] Sema0
       = Some (Attrs, report Sema0 ds)
       /\ (List.length Attrs <= 2)%nat
       /\ (2 <= List.length Attrs + List.length ds)%nat.
Proof.
  assert (D : ProcessStmtAttributes WhileLoop
                [ClangLoopUnrollEnable; ClangLoopVectorizeWidth 8] Range0 Sema0
              = Some (AttributedStmt 0%nat
                        [LoopHint (ClangLoopHint LoopHintAttr.VectorizeWidth 8)]
                        WhileLoop,
                      report Sema0
                        [InvalidKeyword (KeywordAt3 "enable") "full"]))
    by reflexivity.
  split; [exact D|].
  destruct (driver_result _ _ _ _ _ _ D) as [Attrs [ds (P & _ & _ & L1 & L2)]].
  exists Attrs, ds. auto.
Defined.

(** The same pragma: what is attached is a valid loop hint. *)
Lemma attached_attributes_fit_witness :
  ProcessStmtAttributes WhileLoop
    [ClangLoopUnrollEnable; ClangLoopVectorizeWidth 8] Range0 Sema0
  = Some (AttributedStmt 0%nat
            [LoopHint (ClangLoopHint LoopHintAttr.VectorizeWidth 8)] WhileLoop,
          report Sema0 [InvalidKeyword (KeywordAt3 "enable") "full"])
  /\ Forall (fun At => exists LH, At = LoopHint LH /\ ValidHint LH = true)
            [LoopHint (ClangLoopHint LoopHintAttr.VectorizeWidth 8)].
Proof.
  assert (D : ProcessStmtAttributes WhileLoop
                [ClangLoopUnrollEnable; ClangLoopVectorizeWidth 8] Range0 Sema0
              = Some (AttributedStmt 0%nat
                        [LoopHint (ClangLoopHint LoopHintAttr.VectorizeWidth 8)]
                        WhileLoop,
                      report Sema0
                        [InvalidKeyword (KeywordAt3 "enable") "full"]))
    by reflexivity.
  split; [exact D|].
  destruct (attached_attributes_fit _ _ _ _ _ _ D) as (_ & G).
  destruct (G _ _ _ eq_refl) as (_ & [(N & _) | (_ & F)]);
    [discriminate N | exact F].
Defined.

(** [#pragma clang loop unroll(enable)], a fallthrough attribute and
    [#pragma unroll], before an if statement. *)
Lemma driver_returns_witness :
  Forall WellFormedArgs
         [ClangLoopUnrollEnable; FallThroughAttribute; PragmaUnroll]
  /\ exists Res ds,
       ProcessStmtAttributes IfStatement
         [ClangLoopUnrollEnable; FallThroughAttribute; PragmaUnroll]
         Range0 Sema0
       = Some (Res, report Sema0 ds).
Proof.
  assert (W : Forall WellFormedArgs
                [ClangLoopUnrollEnable; FallThroughAttribute; PragmaUnroll]).
  { repeat constructor.
    - intros _. exists "loop", "unroll", (Some (KeywordAt3 "enable")), None.
      split; [loop_hint_args | intros _; discriminate].
    - intros K. discriminate K.
    - intros _. exists "unroll", "unroll", None, None.
      split; [loop_hint_args | intros [N _]; now elim N]. }
  split; [exact W|]. exact (driver_returns IfStatement _ Range0 Sema0 W).
Defined.

(** Two fallthrough attributes on a null statement inside a switch. *)
Lemma fallthrough_attributes_attached_witness :
  getStmtClass NullStatement = NullStmtClass
  /\ SwitchStack (getCurFunction SemaInSwitch) <> []
  /\ Forall (fun A => getKind A = AttributeList.AT_FallThrough)
            [FallThroughAttribute; FallThroughAttribute]
  /\ [FallThroughAttribute; FallThroughAttribute] <> []
  /\ ProcessStmtAttributes NullStatement
       [FallThroughAttribute; FallThroughAttribute] Range0 SemaInSwitch
     = Some (AttributedStmt 0%nat
               [FallThroughAttr (mkSourceRange 2%nat 3%nat) 0%nat;
                FallThroughAttr (mkSourceRange 2%nat 3%nat) 0%nat]
               NullStatement, SemaInSwitch).
Proof.
  assert (H2 : SwitchStack (getCurFunction SemaInSwitch) <> [])
    by (intro; discriminate).
  assert (H3 : Forall (fun A => getKind A = AttributeList.AT_FallThrough)
                      [FallThroughAttribute; FallThroughAttribute])
    by (repeat constructor).
  assert (H4 : [FallThroughAttribute; FallThroughAttribute] <> [])
    by (intro; discriminate).
  split; [reflexivity|]. split; [exact H2|]. split; [exact H3|].
  split; [exact H4|].
  apply (fallthrough_attributes_attached NullStatement _ Range0 SemaInSwitch
           eq_refl H2 H3 H4).
Defined.

(** [vectorize(disable)], [interleave_count(4)] and [unroll_count(2)] on one
    loop. *)
Lemma one_hint_per_category_witness :
  (forall C,
     (countHints C [LoopHint (ClangLoopHint LoopHintAttr.Vectorize 0);
                    LoopHint (ClangLoopHint LoopHintAttr.InterleaveCount 4);
                    LoopHint (ClangLoopHint LoopHintAttr.UnrollCount 2)]
      <= 1)%nat)
  /\ CheckForIncompatibleAttributes
       [LoopHint (ClangLoopHint LoopHintAttr.Vectorize 0);
        LoopHint (ClangLoopHint LoopHintAttr.InterleaveCount 4);
        LoopHint (ClangLoopHint LoopHintAttr.UnrollCount 2)] Sema0
     = Some (tt, Sema0).
Proof.
  assert (H : forall C,
             (countHints C
                [LoopHint (ClangLoopHint LoopHintAttr.Vectorize 0);
                 LoopHint (ClangLoopHint LoopHintAttr.InterleaveCount 4);
                 LoopHint (ClangLoopHint LoopHintAttr.UnrollCount 2)]
              <= 1)%nat)
    by (intros C; destruct C; cbn; lia).
  split; [exact H|]. exact (one_hint_per_category _ Sema0 H).
Defined.

(** [vectorize(disable)] and [vectorize_width(8)], in both orders. *)
Lemma pair_in_either_order_witness :
  LoopHintAttr.getOption (ClangLoopHint LoopHintAttr.Vectorize 0)
  = EnableOptionOf Vectorize
  /\ LoopHintAttr.getOption (ClangLoopHint LoopHintAttr.VectorizeWidth 8)
     = NumericOptionOf Vectorize
  /\ CheckForIncompatibleAttributes
       [LoopHint (ClangLoopHint LoopHintAttr.Vectorize 0);
        LoopHint (ClangLoopHint LoopHintAttr.VectorizeWidth 8)] Sema0
     = Some (tt, report Sema0
               [IncompatibleHint 1%nat
                  (ClangLoopHint LoopHintAttr.Vectorize 0)
                  (ClangLoopHint LoopHintAttr.VectorizeWidth 8)])
  /\ CheckForIncompatibleAttributes
       [LoopHint (ClangLoopHint LoopHintAttr.VectorizeWidth 8);
        LoopHint (ClangLoopHint LoopHintAttr.Vectorize 0)] Sema0
     = Some (tt, report Sema0
               [IncompatibleHint 1%nat
                  (ClangLoopHint LoopHintAttr.Vectorize 0)
                  (ClangLoopHint LoopHintAttr.VectorizeWidth 8)]).
Proof.
  split; [reflexivity|]. split; [reflexivity|].
  exact (pair_in_either_order Vectorize
           (ClangLoopHint LoopHintAttr.Vectorize 0)
           (ClangLoopHint LoopHintAttr.VectorizeWidth 8) Sema0
           eq_refl eq_refl).
Defined.

(** [vectorize(disable)], [vectorize(enable)] and [vectorize_width(8)]. *)
Lemma later_enable_hides_disable_witness :
  (Vectorize <> Unroll
   /\ LoopHintAttr.getOption (ClangLoopHint LoopHintAttr.Vectorize 0)
      = EnableOptionOf Vectorize
   /\ LoopHintAttr.getOption (ClangLoopHint LoopHintAttr.Vectorize 1)
      = EnableOptionOf Vectorize
   /\ LoopHintAttr.getOption (ClangLoopHint LoopHintAttr.VectorizeWidth 8)
      = NumericOptionOf Vectorize
   /\ LoopHintAttr.getValue (ClangLoopHint LoopHintAttr.Vectorize 0) = 0
   /\ LoopHintAttr.getValue (ClangLoopHint LoopHintAttr.Vectorize 1) <> 0)
  /\ LoopReported HintAttrsInit
       [LoopHint (ClangLoopHint LoopHintAttr.Vectorize 0);
        LoopHint (ClangLoopHint LoopHintAttr.Vectorize 1);
        LoopHint (ClangLoopHint LoopHintAttr.VectorizeWidth 8)]
     = [DuplicateHint 1%nat (ClangLoopHint LoopHintAttr.Vectorize 0)
                      (ClangLoopHint LoopHintAttr.Vectorize 1)]
  /\ LoopReported HintAttrsInit
       [LoopHint (ClangLoopHint LoopHintAttr.Vectorize 0);
        LoopHint (ClangLoopHint LoopHintAttr.VectorizeWidth 8);
        LoopHint (ClangLoopHint LoopHintAttr.Vectorize 1)]
     = [IncompatibleHint 1%nat (ClangLoopHint LoopHintAttr.Vectorize 0)
                         (ClangLoopHint LoopHintAttr.VectorizeWidth 8);
        DuplicateHint 1%nat (ClangLoopHint LoopHintAttr.Vectorize 0)
                      (ClangLoopHint LoopHintAttr.Vectorize 1)].
Proof.
  assert (H1 : Vectorize <> Unroll) by (intro; discriminate).
  assert (H2 : LoopHintAttr.getValue (ClangLoopHint LoopHintAttr.Vectorize 1)
               <> 0) by (intro; discriminate).
  split; [repeat split; auto|].
  exact (later_enable_hides_disable Vectorize
           (ClangLoopHint LoopHintAttr.Vectorize 0)
           (ClangLoopHint LoopHintAttr.Vectorize 1)
           (ClangLoopHint LoopHintAttr.VectorizeWidth 8)
           H1 eq_refl eq_refl eq_refl eq_refl H2).
Defined.
